(** * syslog_injector: a shallow embedding of the pacing-and-delivery engine

    The development follows [src/syslog_injector.cpp] function by function:
    [load_config], [format_message], [connect_to_socket], [print_stats] and
    [run_test].  Machine integers are [Z] with their wrap-around written
    out, [std::string] is [string], [double] is the primitive binary64
    [float], and everything the program asks of its surroundings (clocks,
    the [running] flag, system calls) is answered by an environment indexed
    by the number of interactions performed so far. *)

From Stdlib Require Import ZArith List Bool Lia Ascii String.
From Stdlib Require Import Numbers.DecimalString.
From Stdlib Require Numbers.DecimalPos.
From Stdlib Require Import Floats.PrimFloat Floats.SpecFloat Floats.FloatOps.
From Stdlib Require Import Floats.FloatAxioms.
Import ListNotations.

Local Open Scope string_scope.
Local Open Scope Z_scope.

(** ** Machine integers *)

Module MachInt.

Definition INT_MIN : Z := - 2 ^ 31.
Definition INT_MAX : Z := 2 ^ 31 - 1.

Definition in_int (z : Z) : bool := (INT_MIN <=? z) && (z <=? INT_MAX).

(** [int] results are reduced to the two's complement representative.
    (ISO C++ leaves signed overflow undefined; the model follows what the
    x86-64 [imul] instruction emitted for line 190 computes.) *)
Definition wrap_int (z : Z) : Z := (z + 2 ^ 31) mod 2 ^ 32 - 2 ^ 31.

Definition int_mul (a b : Z) : Z := wrap_int (a * b).

(** [a / b] on [int]: truncation toward zero; a zero divisor and
    [INT_MIN / -1] have no result (the [idiv] instruction traps). *)
Definition int_div (a b : Z) : option Z :=
  if b =? 0 then None
  else if (a =? INT_MIN) && (b =? -1) then None
  else Some (Z.quot a b).

(** [uint64_t] arithmetic is modulo 2^64. *)
Definition wrap_u64 (z : Z) : Z := z mod 2 ^ 64.

(** A [steady_clock::time_point] counts nanoseconds in a signed 64-bit
    integer; a sum is reduced to the two's complement representative, as
    for [int]. *)
Definition wrap_i64 (z : Z) : Z := (z + 2 ^ 63) mod 2 ^ 64 - 2 ^ 63.

End MachInt.
Import MachInt.

(** ** std::string operations used by the program *)

Module Str.

Fixpoint take (n : nat) (s : string) : string :=
  match n, s with
  | O, _ => EmptyString
  | S _, EmptyString => EmptyString
  | S n', String c s' => String c (take n' s')
  end.

Fixpoint drop (n : nat) (s : string) : string :=
  match n, s with
  | O, _ => s
  | S _, EmptyString => EmptyString
  | S n', String _ s' => drop n' s'
  end.

(** [s.find(pat)]: the position of the first occurrence, [None] for
    [npos]. *)
Fixpoint find (pat s : string) : option nat :=
  if String.prefix pat s then Some O
  else match s with
       | EmptyString => None
       | String _ s' => option_map S (find pat s')
       end.

(** [s.find(c)] for a single character. *)
Fixpoint find_char (c : ascii) (s : string) : option nat :=
  match s with
  | EmptyString => None
  | String d s' => if Ascii.eqb d c then Some O else option_map S (find_char c s')
  end.

(** [s.replace(pos, n, v)] for [pos <= s.size()]. *)
Definition replace (pos n : nat) (v s : string) : string :=
  take pos s ++ v ++ drop (pos + n) s.

Definition is_blank (c : ascii) : bool :=
  Ascii.eqb c " "%char || Ascii.eqb c "009"%char.

(** [s.find_first_not_of(" \t")]. *)
Fixpoint find_first_not_of_blank (s : string) : option nat :=
  match s with
  | EmptyString => None
  | String c s' =>
      if is_blank c then option_map S (find_first_not_of_blank s') else Some O
  end.

(** [s.find_last_not_of(" \t")]. *)
Fixpoint find_last_not_of_blank (s : string) : option nat :=
  match s with
  | EmptyString => None
  | String c s' =>
      match find_last_not_of_blank s' with
      | Some k => Some (S k)
      | None => if is_blank c then None else Some O
      end
  end.

(** [std::to_string] of an integer. *)
Definition to_string (z : Z) : string := NilZero.string_of_int (Z.to_int z).

End Str.

(** ** Config and load_config *)

Record Config := mkConfig {
  socket_path : string;
  message_format : string;
  target_rate : Z;       (* int: messages per second *)
  duration : Z;          (* int: test duration in seconds *)
  batch_size : Z;        (* int: messages per batch *)
  verbose : bool
}.

Definition default_config : Config :=
  {| socket_path := "/tmp/fluentbit.sock";
     message_format :=
       "<134>1 {timestamp} {hostname} test-app {pid} - - Test message #{counter}";
     target_rate := 1000;
     duration := 60;
     batch_size := 100;
     verbose := false |}.

Module Stoi.

Inductive error := invalid_argument | out_of_range.

Definition is_space (c : ascii) : bool :=
  let n := nat_of_ascii c in
  (Nat.eqb n 32 || (Nat.leb 9 n && Nat.leb n 13))%bool.

Fixpoint skip_space (s : string) : string :=
  match s with
  | String c s' => if is_space c then skip_space s' else s
  | EmptyString => s
  end.

Definition digit_val (c : ascii) : option Z :=
  let n := nat_of_ascii c in
  if (Nat.leb 48 n && Nat.leb n 57)%bool then Some (Z.of_nat n - 48) else None.

(** The longest run of decimal digits at the front of [s], accumulated
    into [acc]; the flag tells whether a digit was seen. *)
Fixpoint digits (s : string) (acc : Z) (seen : bool) : Z * bool :=
  match s with
  | String c s' =>
      match digit_val c with
      | Some d => digits s' (10 * acc + d) true
      | None => (acc, seen)
      end
  | EmptyString => (acc, seen)
  end.

(** [std::stoi(s)]: leading white space, an optional sign, decimal
    digits; what follows the digits is ignored. *)
Definition stoi (s : string) : Z + error :=
  let s1 := skip_space s in
  let '(neg, s2) :=
    match s1 with
    | String "-"%char r => (true, r)
    | String "+"%char r => (false, r)
    | _ => (false, s1)
    end in
  let '(v, seen) := digits s2 0 false in
  if negb seen then inr invalid_argument
  else
    let r := if neg then - v else v in
    if in_int r then inl r else inr out_of_range.

End Stoi.

(** The two [erase] calls that trim a key or a value. *)
Definition trim (s : string) : string :=
  let s1 := match Str.find_first_not_of_blank s with
            | Some k => Str.drop k s
            | None => EmptyString
            end in
  match Str.find_last_not_of_blank s1 with
  | Some k => Str.take (S k) s1
  | None => EmptyString
  end.

Definition set_int (v : string) (k : Z -> Config) : Config + Stoi.error :=
  match Stoi.stoi v with
  | inl z => inl (k z)
  | inr e => inr e
  end.

(** One iteration of the [getline] loop (lines 58-80). *)
Definition load_line (config : Config) (line : string) : Config + Stoi.error :=
  match line with
  | EmptyString => inl config
  | String "#"%char _ => inl config
  | _ =>
      match Str.find_char "="%char line with
      | None => inl config
      | Some pos =>
          let key := trim (Str.take pos line) in
          let value := trim (Str.drop (S pos) line) in
          if String.eqb key "socket_path" then
            inl (mkConfig value (message_format config) (target_rate config)
                   (duration config) (batch_size config) (verbose config))
          else if String.eqb key "message_format" then
            inl (mkConfig (socket_path config) value (target_rate config)
                   (duration config) (batch_size config) (verbose config))
          else if String.eqb key "target_rate" then
            set_int value (fun z =>
              mkConfig (socket_path config) (message_format config) z
                (duration config) (batch_size config) (verbose config))
          else if String.eqb key "duration" then
            set_int value (fun z =>
              mkConfig (socket_path config) (message_format config)
                (target_rate config) z (batch_size config) (verbose config))
          else if String.eqb key "batch_size" then
            set_int value (fun z =>
              mkConfig (socket_path config) (message_format config)
                (target_rate config) (duration config) z (verbose config))
          else if String.eqb key "verbose" then
            inl (mkConfig (socket_path config) (message_format config)
                   (target_rate config) (duration config) (batch_size config)
                   (String.eqb value "true" || String.eqb value "1"))
          else inl config
      end
  end.

Fixpoint load_lines (config : Config) (lines : list string) : Config + Stoi.error :=
  match lines with
  | [] => inl config
  | l :: ls =>
      match load_line config l with
      | inl config' => load_lines config' ls
      | inr e => inr e
      end
  end.

(** [load_config]: the file is [None] when it cannot be opened, otherwise
    the lines [std::getline] yields.  An exception of [std::stoi] leaves
    the function (and, uncaught, the process). *)
Definition load_config (file : option (list string)) : Config + Stoi.error :=
  match file with
  | None => inl default_config
  | Some lines => load_lines default_config lines
  end.

(** ** format_message *)

(** What [format_message] reads from its surroundings: the formatted
    RFC3339 time stamp, the host name and the process id. *)
Record Ambient := mkAmbient {
  amb_timestamp : string;
  amb_hostname : string;
  amb_pid : Z
}.

(** The pattern of lines 89-92, 95-106, 109-114 and 117-120: find the first
    occurrence and replace it. *)
Definition replace_first (pat v s : string) : string :=
  match Str.find pat s with
  | Some pos => Str.replace pos (String.length pat) v s
  | None => s
  end.

Definition format_message (amb : Ambient) (format_template : string) (counter : Z)
  : string :=
  let result := format_template in
  let result := replace_first "{counter}" (Str.to_string counter) result in
  let result := replace_first "{timestamp}" (amb_timestamp amb) result in
  let result := replace_first "{hostname}" (amb_hostname amb) result in
  let result := replace_first "{pid}" (Str.to_string (amb_pid amb)) result in
  result.

(** ** Stats and the snapshot computed by print_stats *)

Record Stats := mkStats {
  messages_sent : Z;     (* std::atomic<uint64_t> *)
  bytes_sent : Z;        (* std::atomic<uint64_t> *)
  errors : Z;            (* std::atomic<uint64_t> *)
  start_time : Z         (* steady_clock::time_point, in nanoseconds *)
}.

(** Conversion of an integer to [double], rounding to nearest even. *)
Definition to_double (z : Z) : float := SF2Prim (binary_normalize 53 1024 z 0 false).

(** What one call of [print_stats] writes (the text layout of lines
    159-164 is not modelled, the printed quantities are). *)
Record Snapshot := mkSnapshot {
  snap_final : bool;
  snap_elapsed : float;
  snap_messages : Z;
  snap_bytes : Z;
  snap_errors : Z;
  snap_msg_rate : float;
  snap_byte_rate : float;
  snap_throughput_kb : float
}.

Definition elapsed_seconds (stats : Stats) (now : Z) : float :=
  PrimFloat.div (to_double (Z.quot (now - start_time stats) 1000000)) 1000%float.

Definition snapshot (stats : Stats) (now : Z) (final : bool) : Snapshot :=
  let elapsed := elapsed_seconds stats now in
  let messages := messages_sent stats in
  let bytes := bytes_sent stats in
  let errs := errors stats in
  let msg_rate :=
    if PrimFloat.ltb 0%float elapsed
    then PrimFloat.div (to_double messages) elapsed else to_double 0 in
  let byte_rate :=
    if PrimFloat.ltb 0%float elapsed
    then PrimFloat.div (to_double bytes) elapsed else to_double 0 in
  mkSnapshot final elapsed messages bytes errs msg_rate byte_rate
    (PrimFloat.div byte_rate 1024%float).

(** ** The surroundings of a run *)

(** Every interaction of the program with its surroundings is one event of
    the trace; the position of an event in the trace is its tick.  The
    environment answers an interaction by the tick at which it happens, so
    a signal delivered at tick [s] is an [env_running] that is [false] from
    [s] on. *)
Record Env := mkEnv {
  env_running : nat -> bool;      (* the value read from [running] *)
  env_steady : nat -> Z;          (* steady_clock::now(), in nanoseconds *)
  env_ambient : nat -> Ambient;   (* system clock, host name, pid *)
  env_socket : nat -> Z;          (* result of socket() *)
  env_connect : nat -> Z;         (* result of connect() *)
  env_send : nat -> Z             (* result of send() *)
}.

Inductive ErrMsg :=
| ErrCreatingSocket
| ErrConnecting (path : string)
| ErrSending
| FailedToReconnect.

Inductive Event :=
| EvRunning (b : bool)
| EvNow (t : Z)
| EvFormat (counter : Z) (result : string)
| EvSocket (fd : Z)
| EvConnect (fd : Z) (path : string) (ret : Z)
| EvSend (fd : Z) (payload : string) (ret : Z)
| EvClose (fd : Z)
| EvSleepFor (ms : Z)
| EvSleepUntil (deadline : Z)
| EvBanner (path : string) (rate dur batch : Z)
| EvCerr (m : ErrMsg)
| EvStats (snap : Snapshot).

(** ** A state-and-trace monad

    The [Stats] object is the state (it is passed by reference); the events
    an action performs are collected in order, and the action is told the
    tick at which it starts. *)

Definition M (A : Type) : Type := Stats -> nat -> A * Stats * list Event.

Definition ret {A} (a : A) : M A := fun s _ => (a, s, []).

Definition bind {A B} (c : M A) (k : A -> M B) : M B :=
  fun s t =>
    let '(a, s1, es1) := c s t in
    let '(b, s2, es2) := k a s1 (t + List.length es1)%nat in
    (b, s2, (es1 ++ es2)%list).

Notation "x <- c ;; k" := (bind c (fun x => k))
  (at level 61, c at next level, right associativity).
Notation "c ;;; k" := (bind c (fun _ => k))
  (at level 61, right associativity).

Definition interact {A} (answer : nat -> A) (ev : A -> Event) : M A :=
  fun s t => (answer t, s, [ev (answer t)]).

Definition emit (e : Event) : M unit := fun s _ => (tt, s, [e]).

Definition get_stats : M Stats := fun s _ => (s, s, []).

Definition update_stats (f : Stats -> Stats) : M unit := fun s _ => (tt, f s, []).

Section Run.

Variable env : Env.

Definition read_running : M bool := interact (env_running env) EvRunning.
Definition steady_now : M Z := interact (env_steady env) EvNow.
Definition sys_socket : M Z := interact (env_socket env) EvSocket.
Definition sys_connect (fd : Z) (path : string) : M Z :=
  interact (env_connect env) (EvConnect fd path).
Definition sys_send (fd : Z) (payload : string) : M Z :=
  interact (env_send env) (EvSend fd payload).
Definition sys_close (fd : Z) : M unit := emit (EvClose fd).

Definition call_format_message (format_template : string) (counter : Z) : M string :=
  interact (fun t => format_message (env_ambient env t) format_template counter)
           (EvFormat counter).

(** [connect_to_socket] (lines 125-145). *)
Definition connect_to_socket (path : string) : M Z :=
  sock <- sys_socket ;;
  if sock <? 0 then
    emit (EvCerr ErrCreatingSocket) ;;; ret (-1)
  else
    r <- sys_connect sock path ;;
    if r <? 0 then
      emit (EvCerr (ErrConnecting path)) ;;;
      sys_close sock ;;;
      ret (-1)
    else ret sock.

(** [print_stats] (lines 147-171). *)
Definition print_stats (final : bool) : M unit :=
  now <- steady_now ;;
  stats <- get_stats ;;
  emit (EvStats (snapshot stats now final)).

(** [stats.errors++], and lines 227-228. *)
Definition record_error (s : Stats) : Stats :=
  mkStats (messages_sent s) (bytes_sent s) (wrap_u64 (errors s + 1)) (start_time s).

Definition record_success (sent : Z) (s : Stats) : Stats :=
  mkStats (wrap_u64 (messages_sent s + 1)) (wrap_u64 (bytes_sent s + sent))
          (errors s) (start_time s).

Variable config : Config.

(** Lines 189-190, as a count of microseconds. *)
Definition batch_interval_us : option Z :=
  int_div (int_mul (batch_size config) 1000000) (target_rate config).

(** The local variables of [run_test] that the loops change. *)
Record Locals := mkLocals {
  sock : Z;
  counter : Z;                (* uint64_t *)
  next_batch_time : Z;        (* time_point, nanoseconds *)
  last_print_time : Z
}.

Definition with_sock (l : Locals) (fd : Z) : Locals :=
  mkLocals fd (counter l) (next_batch_time l) (last_print_time l).

Definition bump_counter (l : Locals) : Locals :=
  mkLocals (sock l) (wrap_u64 (counter l + 1)) (next_batch_time l) (last_print_time l).

(** The body of the [for] loop (lines 208-229): [Some code] for the
    [return] of line 224, [None] when the next [i] is to be tried. *)
Definition send_one (l : Locals) : M (option Z * Locals) :=
  message <- call_format_message (message_format config) (counter l) ;;
  let l := bump_counter l in
  let message := message ++ String "010"%char EmptyString in
  sent <- sys_send (sock l) message ;;
  if sent <? 0 then
    (if verbose config then emit (EvCerr ErrSending) else ret tt) ;;;
    update_stats record_error ;;;
    sys_close (sock l) ;;;
    emit (EvSleepFor 100) ;;;
    s <- connect_to_socket (socket_path config) ;;
    let l := with_sock l s in
    if s <? 0 then
      emit (EvCerr FailedToReconnect) ;;;
      ret (Some 1, l)
    else ret (None, l)
  else
    update_stats (record_success sent) ;;;
    ret (None, l).

(** The [for] loop of lines 207-230 with [n] values of [i] still to go;
    [running] is read only when [i < config.batch_size] holds. *)
Fixpoint send_batch (n : nat) (l : Locals) : M (option Z * Locals) :=
  match n with
  | O => ret (None, l)
  | S n' =>
      r <- read_running ;;
      if negb r then ret (None, l)
      else
        x <- send_one l ;;
        match x with
        | (Some code, l) => ret (Some code, l)
        | (None, l) => send_batch n' l
        end
  end.

Inductive Flow :=
| Next (l : Locals)         (* the body ran to its end *)
| Break (l : Locals)        (* the [break] of line 203 *)
| Return (code : Z).        (* the [return] of line 224 *)

(** The body of the [while] loop (lines 199-241).  Line 240 converts the
    interval from microseconds to the nanoseconds of the time point (a
    64-bit product of an [int] by 1000, which fits) and adds it in 64
    bits. *)
Definition tick_body (interval_us test_start : Z) (l : Locals) : M Flow :=
  now <- steady_now ;;
  let elapsed := Z.quot (now - test_start) 1000000000 in
  if elapsed >=? duration config then ret (Break l)
  else
    b <- send_batch (Z.to_nat (batch_size config)) l ;;
    match b with
    | (Some code, _) => ret (Return code)
    | (None, l) =>
        now <- steady_now ;;
        l <- (if Z.quot (now - last_print_time l) 1000000000 >=? 1 then
                print_stats false ;;;
                ret (mkLocals (sock l) (counter l) (next_batch_time l) now)
              else ret l) ;;
        let l := mkLocals (sock l) (counter l)
                   (wrap_i64 (next_batch_time l + 1000 * interval_us))
                   (last_print_time l) in
        emit (EvSleepUntil (next_batch_time l)) ;;;
        ret (Next l)
    end.

Inductive LoopExit :=
| LeftLoop (l : Locals)     (* [running] read false, or the [break] *)
| Returned (code : Z)       (* the [return] of line 224 *)
| NoFuel.

(** The [while] loop of lines 198-242; [fuel] bounds the number of
    iterations. *)
Fixpoint main_loop (interval_us test_start : Z) (fuel : nat) (l : Locals)
  : M LoopExit :=
  match fuel with
  | O => ret NoFuel
  | S fuel' =>
      r <- read_running ;;
      if negb r then ret (LeftLoop l)
      else
        x <- tick_body interval_us test_start l ;;
        match x with
        | Next l => main_loop interval_us test_start fuel' l
        | Break l => ret (LeftLoop l)
        | Return code => ret (Returned code)
        end
  end.

Inductive Outcome :=
| Exit (code : Z)
| Trap               (* the integer division of line 190 faulted *)
| OutOfFuel.

(** [run_test] (lines 173-248). *)
Definition run_test (fuel : nat) : M Outcome :=
  t0 <- steady_now ;;
  update_stats (fun s => mkStats (messages_sent s) (bytes_sent s) (errors s) t0) ;;;
  fd <- connect_to_socket (socket_path config) ;;
  if fd <? 0 then ret (Exit 1)
  else
    emit (EvBanner (socket_path config) (target_rate config) (duration config)
            (batch_size config)) ;;;
    match batch_interval_us with
    | None => ret Trap
    | Some interval_us =>
        test_start <- steady_now ;;
        x <- main_loop interval_us test_start fuel (mkLocals fd 0 test_start test_start) ;;
        match x with
        | LeftLoop l =>
            print_stats true ;;;
            sys_close (sock l) ;;;
            ret (Exit 0)
        | Returned code => ret (Exit code)
        | NoFuel => ret OutOfFuel
        end
    end.

End Run.

Definition init_stats : Stats := mkStats 0 0 0 0.

(** A run from the freshly constructed [Stats]: the outcome, the final
    counters and the trace. *)
Definition run (env : Env) (config : Config) (fuel : nat) : Outcome * Stats * list Event :=
  run_test env config fuel init_stats O.

Definition outcome_of (r : Outcome * Stats * list Event) : Outcome := fst (fst r).
Definition stats_of (r : Outcome * Stats * list Event) : Stats := snd (fst r).
Definition trace_of (r : Outcome * Stats * list Event) : list Event := snd r.


(** * Observations, normal forms and sample surroundings *)

(** ** What a trace shows *)

Definition nl : string := String "010"%char EmptyString.

Definition is_send (e : Event) : bool :=
  match e with EvSend _ _ _ => true | _ => false end.

(** The [send] calls among the events from position [k] on. *)
Definition sends_after (k : nat) (es : list Event) : nat :=
  List.length (filter is_send (skipn k es)).

(** The calls of [format_message]: counter and result, in order. *)
Fixpoint renders (es : list Event) : list (Z * string) :=
  match es with
  | [] => []
  | EvFormat c m :: es' => (c, m) :: renders es'
  | _ :: es' => renders es'
  end.

(** The [send] calls: descriptor, payload and result, in order. *)
Fixpoint sends (es : list Event) : list (Z * string * Z) :=
  match es with
  | [] => []
  | EvSend fd p r :: es' => (fd, p, r) :: sends es'
  | _ :: es' => sends es'
  end.

(** The deadlines handed to [sleep_until], in order. *)
Fixpoint deadlines (es : list Event) : list Z :=
  match es with
  | [] => []
  | EvSleepUntil d :: es' => d :: deadlines es'
  | _ :: es' => deadlines es'
  end.

(** The [socket()] calls, one per connection attempt. *)
Fixpoint socket_calls (es : list Event) : list Z :=
  match es with
  | [] => []
  | EvSocket fd :: es' => fd :: socket_calls es'
  | _ :: es' => socket_calls es'
  end.

(** The snapshots printed, in order. *)
Fixpoint snapshots (es : list Event) : list Snapshot :=
  match es with
  | [] => []
  | EvStats s :: es' => s :: snapshots es'
  | _ :: es' => snapshots es'
  end.

(** ** Normal forms of the connection attempt and of the start of a run *)

Definition connect_result (env : Env) (t : nat) : Z :=
  if env_socket env t <? 0 then -1
  else if env_connect env (t + 1) <? 0 then -1 else env_socket env t.

Definition connect_events (env : Env) (path : string) (t : nat) : list Event :=
  let fd := env_socket env t in
  if fd <? 0 then [EvSocket fd; EvCerr ErrCreatingSocket]
  else
    let r := env_connect env (t + 1) in
    if r <? 0
    then [EvSocket fd; EvConnect fd path r; EvCerr (ErrConnecting path); EvClose fd]
    else [EvSocket fd; EvConnect fd path r].

Definition second : Z := 1000000000.

(** The events of a run up to the computation of the interval. *)
Definition preamble (env : Env) (config : Config) : list Event :=
  (EvNow (env_steady env 0) :: connect_events env (socket_path config) 1
   ++ [EvBanner (socket_path config) (target_rate config) (duration config)
         (batch_size config)])%list.

(** ** The counter sequence and the schedule *)

Definition next_counter (c : Z) : Z := wrap_u64 (c + 1).

(** The values [counter++] yields over [m] calls, starting from [c]. *)
Fixpoint counts_from (c : Z) (m : nat) : list Z :=
  match m with
  | O => []
  | S m' => c :: counts_from (next_counter c) m'
  end.

Definition payload_of (s : Z * string * Z) : string := snd (fst s).

(** The renderings in [es] use the counters from [c] on, one after the
    other, leaving [c']; every rendering is sent, in the same order, with
    the line terminator appended. *)
Definition counted (config : Config) (c : Z) (es : list Event) (c' : Z) : Prop :=
  map fst (renders es) = counts_from c (List.length (renders es)) /\
  c' = Nat.iter (List.length (renders es)) next_counter c /\
  map payload_of (sends es) = map (fun r => (snd r ++ nl)%string) (renders es) /\
  Forall (fun r => exists amb, snd r = format_message amb (message_format config) (fst r))
         (renders es).

Definition flow_counter (c : Z) (x : Flow) : Prop :=
  match x with
  | Next l | Break l => counter l = c
  | Return _ => True
  end.


(** ** Outcomes of a failed reconnect *)

Definition reconnect_failed (es : list Event) : Prop := In (EvCerr FailedToReconnect) es.

Definition no_final_snapshot (es : list Event) : Prop :=
  Forall (fun snap => snap_final snap = false) (snapshots es).

Definition fd_of (s : Z * string * Z) : Z := fst (fst s).

Definition flag_reads (es : list Event) : list bool :=
  flat_map (fun e => match e with EvRunning b => [b] | _ => [] end) es.

(** ** What the spec says of a substitution *)

Module Render.

Local Open Scope string_scope.

(** Following the spec's words: [pat] occurs in [s]. *)
Definition occurs (pat s : string) : Prop :=
  exists pre post, s = pre ++ pat ++ post.

(** Following the spec's words: the first occurrence of [pat], if there
    is one, is replaced by [v], and nothing else changes. *)
Inductive subst_first (pat v s : string) : string -> Prop :=
| subst_absent : ~ occurs pat s -> subst_first pat v s s
| subst_at (pre post : string) :
    s = pre ++ pat ++ post ->
    (forall pre' post', s = pre' ++ pat ++ post' ->
                        (String.length pre <= String.length pre')%nat) ->
    subst_first pat v s (pre ++ v ++ post).

End Render.

(** ** Sample surroundings *)

Definition amb0 : Ambient := mkAmbient "2024-01-02T03:04:05.006Z" "node1" 4242.

(** A socket that accepts everything, a flag that is never cleared, a
    clock that advances 0.3 s per interaction. *)
Definition env_steady_ok : Env :=
  mkEnv (fun _ => true) (fun t => Z.of_nat t * 300000000) (fun _ => amb0)
        (fun _ => 3) (fun _ => 0) (fun _ => 12).

(** The first [send] (tick 9) fails and the [socket()] call of the
    reconnect (tick 12) fails too. *)
Definition env_reconnect_fails : Env :=
  mkEnv (fun _ => true) (fun t => Z.of_nat t * 1000) (fun _ => amb0)
        (fun t => if Nat.eqb t 1 then 3 else -1) (fun _ => 0)
        (fun t => if Nat.eqb t 9 then -1 else 12).

(** The flag is cleared at tick 9, between the flag read of tick 7 and the
    [send] of tick 9. *)
Definition env_cancel_at_9 : Env :=
  mkEnv (fun t => Nat.ltb t 9) (fun t => Z.of_nat t * 1000) (fun _ => amb0)
        (fun _ => 3) (fun _ => 0) (fun _ => 12).

(** Every [send] returns 5 although each payload has 12 bytes. *)
Definition env_short_writes : Env :=
  mkEnv (fun _ => true) (fun t => Z.of_nat t * 300000000) (fun _ => amb0)
        (fun _ => 3) (fun _ => 0) (fun _ => 5).

(** The second [send] of a batch of three (tick 5) fails; the descriptor
    in use is 3 and [socket()] returns 4. *)
Definition env_one_failure : Env :=
  mkEnv (fun _ => true) (fun t => Z.of_nat t * 1000) (fun _ => amb0)
        (fun _ => 4) (fun _ => 0) (fun t => if Nat.eqb t 5 then -1 else 12).

(** ** Further observations: strings, descriptors, counters, signals *)

(** Every character of [s] satisfies [p]. *)
Fixpoint str_all (p : ascii -> bool) (s : string) : bool :=
  match s with
  | EmptyString => true
  | String c s' => p c && str_all p s'
  end.

Definition starts_blank (s : string) : bool :=
  match s with
  | String c _ => Str.is_blank c
  | EmptyString => false
  end.

Fixpoint ends_blank (s : string) : bool :=
  match s with
  | EmptyString => false
  | String c EmptyString => Str.is_blank c
  | String _ s' => ends_blank s'
  end.

Definition not_equals_sign (c : ascii) : bool := negb (Ascii.eqb c "="%char).

(** The lines the [getline] loop passes over: empty ones, comments, and
    those without an equals sign. *)
Definition is_skipped (line : string) : bool :=
  match line with
  | EmptyString => true
  | String "#"%char _ => true
  | _ => str_all not_equals_sign line
  end.

Definition is_digit (c : ascii) : bool :=
  (Nat.leb 48 (nat_of_ascii c) && Nat.leb (nat_of_ascii c) 57)%bool.

Definition not_brace (c : ascii) : bool := negb (Ascii.eqb c "{"%char).

(** The [close] calls, in order. *)
Fixpoint closes (es : list Event) : list Z :=
  match es with
  | [] => []
  | EvClose fd :: es' => fd :: closes es'
  | _ :: es' => closes es'
  end.

(** A monitor of the descriptor discipline: [cur] is the descriptor that
    is open, if any.  It fails ([None]) when [socket()] hands out a second
    descriptor while one is open, and when [connect], [send] or [close] is
    applied to anything but the open descriptor; otherwise it returns the
    descriptor left open. *)
Fixpoint fd_monitor (cur : option Z) (es : list Event) : option (option Z) :=
  match es with
  | [] => Some cur
  | EvSocket fd :: es' =>
      match cur with
      | None => fd_monitor (if fd <? 0 then None else Some fd) es'
      | Some _ => None
      end
  | EvConnect fd _ _ :: es' | EvSend fd _ _ :: es' =>
      match cur with
      | Some c => if fd =? c then fd_monitor cur es' else None
      | None => None
      end
  | EvClose fd :: es' =>
      match cur with
      | Some c => if fd =? c then fd_monitor None es' else None
      | None => None
      end
  | _ :: es' => fd_monitor cur es'
  end.

Definition send_result (s : Z * string * Z) : Z := snd s.

(** The sends that returned a count, those that returned an error, and
    the sum of the counts returned. *)
Definition sends_ok (es : list Event) : list (Z * string * Z) :=
  filter (fun s => 0 <=? send_result s) (sends es).

Definition sends_failed (es : list Event) : list (Z * string * Z) :=
  filter (fun s => send_result s <? 0) (sends es).

Definition bytes_accepted (es : list Event) : Z :=
  fold_right Z.add 0 (map send_result (sends_ok es)).

Definition u64_stats (s : Stats) : Prop :=
  0 <= messages_sent s < 2 ^ 64 /\ 0 <= bytes_sent s < 2 ^ 64 /\
  0 <= errors s < 2 ^ 64.

(** From [s] the events [es] lead to [s']: every [send] is counted once,
    as a message (with the bytes it returned) or as an error. *)
Definition accounted (s : Stats) (es : list Event) (s' : Stats) : Prop :=
  u64_stats s' /\
  messages_sent s' = wrap_u64 (messages_sent s + Z.of_nat (List.length (sends_ok es))) /\
  bytes_sent s' = wrap_u64 (bytes_sent s + bytes_accepted es) /\
  errors s' = wrap_u64 (errors s + Z.of_nat (List.length (sends_failed es))) /\
  start_time s' = start_time s.

(** A monitor of the printed statistics: it counts the sends as lines 216
    and 227-228 do, and at every snapshot compares the three counters
    printed with its own; it fails ([None]) at a snapshot that shows
    anything else, and otherwise returns the counters at the end. *)
Fixpoint stats_monitor (c : Z * Z * Z) (es : list Event) : option (Z * Z * Z) :=
  let '(m, b, e) := c in
  match es with
  | [] => Some c
  | EvSend _ _ r :: es' =>
      if r <? 0 then stats_monitor (m, b, wrap_u64 (e + 1)) es'
      else stats_monitor (wrap_u64 (m + 1), wrap_u64 (b + r), e) es'
  | EvStats snap :: es' =>
      if (snap_messages snap =? m) && (snap_bytes snap =? b) && (snap_errors snap =? e)
      then stats_monitor c es' else None
  | _ :: es' => stats_monitor c es'
  end.

Definition counters_of (s : Stats) : Z * Z * Z :=
  (messages_sent s, bytes_sent s, errors s).

(** The key and the value of a line that the loop does not pass over. *)
Definition key_of (line : string) : option string :=
  if is_skipped line then None
  else match Str.find_char "="%char line with
       | Some pos => Some (trim (Str.take pos line))
       | None => None
       end.

Definition value_of (line : string) : option string :=
  if is_skipped line then None
  else match Str.find_char "="%char line with
       | Some pos => Some (trim (Str.drop (S pos) line))
       | None => None
       end.

(** The chain of comparisons of lines 74-79. *)
Definition assign_key (config : Config) (key value : string) : Config + Stoi.error :=
  if String.eqb key "socket_path" then
    inl (mkConfig value (message_format config) (target_rate config)
           (duration config) (batch_size config) (verbose config))
  else if String.eqb key "message_format" then
    inl (mkConfig (socket_path config) value (target_rate config)
           (duration config) (batch_size config) (verbose config))
  else if String.eqb key "target_rate" then
    set_int value (fun z =>
      mkConfig (socket_path config) (message_format config) z
        (duration config) (batch_size config) (verbose config))
  else if String.eqb key "duration" then
    set_int value (fun z =>
      mkConfig (socket_path config) (message_format config)
        (target_rate config) z (batch_size config) (verbose config))
  else if String.eqb key "batch_size" then
    set_int value (fun z =>
      mkConfig (socket_path config) (message_format config)
        (target_rate config) (duration config) z (verbose config))
  else if String.eqb key "verbose" then
    inl (mkConfig (socket_path config) (message_format config)
           (target_rate config) (duration config) (batch_size config)
           (String.eqb value "true" || String.eqb value "1"))
  else inl config.

Definition config_in_int (config : Config) : Prop :=
  in_int (target_rate config) = true /\ in_int (duration config) = true /\
  in_int (batch_size config) = true.

Definition digit_or_minus (c : ascii) : bool := is_digit c || Ascii.eqb c "-"%char.

(** [signal_handler] (lines 36-38): whatever the flag was, it is cleared. *)
Definition signal_handler (running : bool) : bool := false.

(** The flag as the [t]-th interaction reads it, when [delivered k] tells
    whether a signal arrives just before interaction [k]; line 18
    initialises it to [true], and the handler is its only writer. *)
Fixpoint running_at (delivered : nat -> bool) (t : nat) : bool :=
  let before := match t with
                | O => true
                | S t' => running_at delivered t'
                end in
  if delivered t then signal_handler before else before.

(** A signal is delivered just before interaction 9, and only then. *)
Definition env_signal_at_9 : Env :=
  mkEnv (running_at (fun k => Nat.eqb k 9)) (fun t => Z.of_nat t * 1000)
        (fun _ => amb0) (fun _ => 3) (fun _ => 0) (fun _ => 12).

(** The duration has passed at the clock reading of tick [t]. *)
Definition expired (env : Env) (config : Config) (t : nat) : Prop :=
  duration config * second <= env_steady env t - env_steady env 4.

(** The bursts of a trace: the number of [send] calls before the first
    [sleep_until], between each [sleep_until] and the next, and after the
    last; [cur] counts the sends of the burst in progress. *)
Fixpoint bursts (cur : nat) (es : list Event) : list nat :=
  match es with
  | [] => [cur]
  | EvSleepUntil _ :: es' => cur :: bursts O es'
  | EvSend _ _ _ :: es' => bursts (S cur) es'
  | _ :: es' => bursts cur es'
  end.



(** * Properties *)

(** ** The embedding on examples *)

Example format_message_default :
  format_message (mkAmbient "2024-01-02T03:04:05.006Z" "node1" 4242)
    (message_format default_config) 17
  = "<134>1 2024-01-02T03:04:05.006Z node1 test-app 4242 - - Test message #17".
Proof. reflexivity. Qed.

Example load_config_example :
  load_config (Some ["# comment"; ""; " target_rate = 250 "; "batch_size=0";
                     "verbose=1"; "unknown=3"; "no equals sign"])
  = inl (mkConfig "/tmp/fluentbit.sock" (message_format default_config)
           250 60 0 true).
Proof. reflexivity. Qed.

Example load_config_bad_number :
  load_config (Some ["duration=abc"]) = inr Stoi.invalid_argument.
Proof. reflexivity. Qed.

(** ** The batch interval (lines 189-190) *)

Section Interval.

Lemma wrap_int_range (z : Z) : INT_MIN <= wrap_int z <= INT_MAX.
Proof.
  unfold wrap_int, INT_MIN, INT_MAX.
  pose proof (Z.mod_pos_bound (z + 2 ^ 31) (2 ^ 32) ltac:(lia)). lia.
Qed.

Lemma wrap_int_small (z : Z) : INT_MIN <= z <= INT_MAX -> wrap_int z = z.
Proof.
  unfold wrap_int, INT_MIN, INT_MAX. intros H.
  rewrite Z.mod_small by lia. lia.
Qed.

(** Above [INT_MAX] the reduced product lies at least 2^32 below the
    mathematical one. *)
Lemma wrap_int_large (z : Z) : INT_MAX < z -> wrap_int z <= z - 2 ^ 32.
Proof.
  unfold wrap_int, INT_MAX. intros H.
  pose proof (Z.div_mod (z + 2 ^ 31) (2 ^ 32) ltac:(lia)) as E.
  assert (1 <= (z + 2 ^ 31) / 2 ^ 32).
  { apply Z.div_le_lower_bound; lia. }
  lia.
Qed.

Lemma int_div_pos (a b : Z) : 0 < b -> int_div a b = Some (Z.quot a b).
Proof.
  intros H. unfold int_div.
  destruct (Z.eqb_spec b 0); [lia|].
  destruct (Z.eqb_spec b (-1)); [lia|].
  now rewrite andb_false_r.
Qed.

(** Without overflow the interval is the integer quotient of the spec's
    formula. *)
Lemma batch_interval_exact (config : Config) :
  0 <= batch_size config <= 2147 -> 0 < target_rate config ->
  batch_interval_us config
  = Some (batch_size config * 1000000 / target_rate config).
Proof.
  intros Hb Hr. unfold batch_interval_us, int_mul.
  rewrite wrap_int_small by (unfold INT_MIN, INT_MAX; lia).
  rewrite int_div_pos by assumption.
  rewrite Z.quot_div_nonneg by lia. reflexivity.
Qed.

(** The only division is by [target_rate]: it has a result exactly when
    the divisor is not zero and the quotient is representable. *)
Lemma batch_interval_defined (config : Config) :
  target_rate config <> 0 -> target_rate config <> -1 ->
  exists v, batch_interval_us config = Some v.
Proof.
  intros H0 H1. unfold batch_interval_us, int_div.
  destruct (Z.eqb_spec (target_rate config) 0); [contradiction|].
  destruct (Z.eqb_spec (target_rate config) (-1)); [contradiction|].
  rewrite andb_false_r. eauto.
Qed.


End Interval.

(** C10: for a batch size above 2147 and a positive target rate (both
    [int] values) the product [batch_size * 1000000] is reduced modulo
    2^32 to a different number, and the interval the program computes is
    not the quotient [batch_size * 1000000 / target_rate]: it is strictly
    smaller. *)
Theorem batch_interval_overflow (config : Config) :
  2147 < batch_size config -> batch_size config <= INT_MAX ->
  0 < target_rate config -> target_rate config <= INT_MAX ->
  int_mul (batch_size config) 1000000 <> batch_size config * 1000000 /\
  (int_mul (batch_size config) 1000000 - batch_size config * 1000000) mod 2 ^ 32 = 0 /\
  exists v, batch_interval_us config = Some v /\
            v < batch_size config * 1000000 / target_rate config /\
            v <> batch_size config * 1000000 / target_rate config.
Proof.
  intros Hb Hb' Hr Hr'. unfold INT_MAX in *.
  set (X := batch_size config * 1000000).
  assert (HX : INT_MAX < X) by (unfold INT_MAX, X; lia).
  pose proof (wrap_int_large X HX) as Hw.
  pose proof (wrap_int_range X) as Hrange.
  unfold int_mul. fold X.
  split; [lia|]. split.
  { unfold wrap_int.
    pose proof (Z.div_mod (X + 2 ^ 31) (2 ^ 32) ltac:(lia)) as E.
    replace ((X + 2 ^ 31) mod 2 ^ 32 - 2 ^ 31 - X)
      with (- ((X + 2 ^ 31) / 2 ^ 32) * 2 ^ 32) by lia.
    apply Z.mod_mul. lia. }
  unfold batch_interval_us, int_mul. fold X.
  rewrite int_div_pos by assumption.
  eexists. split; [reflexivity|].
  assert (Hlt : Z.quot (wrap_int X) (target_rate config) < X / target_rate config).
  { assert (Hq : (X - 2 ^ 32) / target_rate config + 2 <= X / target_rate config).
    { rewrite <- Z.div_add by lia.
      apply Z.div_le_mono; lia. }
    destruct (Z_lt_le_dec (wrap_int X) 0) as [Hneg | Hpos].
    - assert (Z.quot (wrap_int X) (target_rate config) <= 0).
      { apply Z.quot_le_upper_bound; lia. }
      assert (1 <= X / target_rate config).
      { apply Z.div_le_lower_bound; unfold INT_MAX in HX; lia. }
      lia.
    - rewrite Z.quot_div_nonneg by lia.
      assert (wrap_int X / target_rate config <= (X - 2 ^ 32) / target_rate config).
      { apply Z.div_le_mono; lia. }
      lia. }
  split; lia.
Qed.

Lemma batch_interval_overflow_witness :
  exists v, batch_interval_us (mkConfig "/tmp/s" "{counter}" 1000 60 2148 false) = Some v
            /\ v <> 2148 * 1000000 / 1000.
Proof.
  destruct (batch_interval_overflow (mkConfig "/tmp/s" "{counter}" 1000 60 2148 false))
    as (_ & _ & v & Hv & _ & Hne); simpl; unfold INT_MAX; try lia.
  exists v. split; [exact Hv | exact Hne].
Defined.

Example batch_interval_2148 :
  batch_interval_us (mkConfig "/tmp/s" "{counter}" 1000 60 2148 false) = Some (-2146967).
Proof. reflexivity. Qed.

(** ** format_message (lines 85-123) *)

Module RenderFacts.

Import Render.
Local Open Scope string_scope.

Lemma app_assoc (a b c : string) : (a ++ b) ++ c = a ++ b ++ c.
Proof. induction a; simpl; congruence. Qed.

Lemma prefix_app (pat post : string) : String.prefix pat (pat ++ post) = true.
Proof.
  induction pat as [|c pat IH]; simpl.
  - now destruct post.
  - destruct (ascii_dec c c); [exact IH | congruence].
Qed.

Lemma prefix_inv (pat s : string) :
  String.prefix pat s = true -> exists post, s = pat ++ post.
Proof.
  revert s. induction pat as [|c pat IH]; intros s H.
  - exists s. reflexivity.
  - destruct s as [|d s]; simpl in H; [discriminate|].
    destruct (ascii_dec c d); [|discriminate]. subst d.
    destruct (IH _ H) as [post ->]. now exists post.
Qed.

Lemma take_app (pre rest : string) : Str.take (String.length pre) (pre ++ rest) = pre.
Proof. induction pre; simpl; [now destruct rest | congruence]. Qed.

Lemma drop_app (pre rest : string) : Str.drop (String.length pre) (pre ++ rest) = rest.
Proof. induction pre; simpl; auto. Qed.

Lemma length_app (a b : string) :
  String.length (a ++ b) = (String.length a + String.length b)%nat.
Proof. induction a; simpl; auto. Qed.

(** [find] returns the least position at which [pat] occurs. *)
Lemma find_Some (pat s : string) (n : nat) :
  Str.find pat s = Some n ->
  exists pre post,
    s = pre ++ pat ++ post /\ String.length pre = n /\
    forall pre' post', s = pre' ++ pat ++ post' -> (n <= String.length pre')%nat.
Proof.
  revert n. induction s as [|c s IH]; intros n H.
  - cbn [Str.find] in H. destruct (String.prefix pat "") eqn:P; [|discriminate].
    injection H as <-. destruct (prefix_inv _ _ P) as [post E].
    exists "", post. repeat split; auto. intros; lia.
  - cbn [Str.find] in H. destruct (String.prefix pat (String c s)) eqn:P.
    + injection H as <-. destruct (prefix_inv _ _ P) as [post E].
      exists "", post. repeat split; auto. intros; lia.
    + destruct (Str.find pat s) as [k|] eqn:F; [|discriminate].
      injection H as <-.
      destruct (IH k eq_refl) as (pre & post & E & L & Hmin).
      exists (String c pre), post. repeat split.
      * simpl. now rewrite E.
      * simpl. now rewrite L.
      * intros pre' post' E'. destruct pre' as [|d pre'].
        -- simpl in E'. rewrite E' in P. now rewrite prefix_app in P.
        -- simpl in E'. injection E' as _ E'.
           specialize (Hmin _ _ E'). simpl. lia.
Qed.

Lemma find_None (pat s : string) : Str.find pat s = None -> ~ occurs pat s.
Proof.
  induction s as [|c s IH]; intros H (pre & post & E).
  - cbn [Str.find] in H. destruct (String.prefix pat "") eqn:P; [discriminate|].
    destruct pre; simpl in E.
    + rewrite E in P. now rewrite prefix_app in P.
    + discriminate.
  - cbn [Str.find] in H. destruct (String.prefix pat (String c s)) eqn:P; [discriminate|].
    destruct (Str.find pat s) eqn:F; [discriminate|].
    destruct pre as [|d pre]; simpl in E.
    + rewrite E in P. now rewrite prefix_app in P.
    + injection E as _ E. apply IH; [reflexivity|]. now exists pre, post.
Qed.

(** Each of the four find-and-replace steps of [format_message] is the
    substitution of the first occurrence. *)
Lemma replace_first_spec (pat v s : string) :
  subst_first pat v s (replace_first pat v s).
Proof.
  unfold replace_first. destruct (Str.find pat s) as [n|] eqn:F.
  - destruct (find_Some _ _ _ F) as (pre & post & E & L & Hmin).
    unfold Str.replace. subst n.
    replace (Str.take (String.length pre) s) with pre
      by (rewrite E; now rewrite take_app).
    replace (Str.drop (String.length pre + String.length pat) s) with post.
    + now apply subst_at.
    + rewrite E, <- app_assoc, <- length_app. now rewrite drop_app.
  - apply subst_absent. now apply find_None.
Qed.

Lemma replace_first_absent (pat v s : string) :
  ~ occurs pat s -> replace_first pat v s = s.
Proof.
  intros H. unfold replace_first. destruct (Str.find pat s) as [n|] eqn:F; auto.
  destruct (find_Some _ _ _ F) as (pre & post & E & _). exfalso. apply H.
  now exists pre, post.
Qed.

End RenderFacts.

(** C7: [format_message] on ["{counter}-{missing}"] and 5 is
    ["5-{missing}"]; for every template and counter the result comes from
    the template by four substitutions in turn ({counter}, {timestamp},
    {hostname}, {pid}), each replacing the first occurrence of its
    placeholder only, or nothing when there is none; and a template in
    which none of the four placeholders occurs is returned verbatim. *)
Theorem format_message_placeholders (amb : Ambient) (template : string) (counter : Z) :
  format_message amb "{counter}-{missing}" 5 = "5-{missing}"%string /\
  (exists s1 s2 s3,
      Render.subst_first "{counter}" (Str.to_string counter) template s1 /\
      Render.subst_first "{timestamp}" (amb_timestamp amb) s1 s2 /\
      Render.subst_first "{hostname}" (amb_hostname amb) s2 s3 /\
      Render.subst_first "{pid}" (Str.to_string (amb_pid amb)) s3
        (format_message amb template counter)) /\
  (~ Render.occurs "{counter}" template -> ~ Render.occurs "{timestamp}" template ->
   ~ Render.occurs "{hostname}" template -> ~ Render.occurs "{pid}" template ->
   format_message amb template counter = template).
Proof.
  split; [reflexivity|]. split.
  - unfold format_message. do 3 eexists.
    repeat split; apply RenderFacts.replace_first_spec.
  - intros Hc Ht Hh Hp. unfold format_message.
    rewrite (RenderFacts.replace_first_absent "{counter}") by assumption.
    rewrite (RenderFacts.replace_first_absent "{timestamp}") by assumption.
    rewrite (RenderFacts.replace_first_absent "{hostname}") by assumption.
    now rewrite (RenderFacts.replace_first_absent "{pid}") by assumption.
Qed.

Lemma format_message_placeholders_witness :
  format_message amb0 "plain {missing} text" 9 = "plain {missing} text"%string.
Proof.
  apply (proj2 (proj2 (format_message_placeholders amb0 "plain {missing} text" 9)));
    apply RenderFacts.find_None; reflexivity.
Defined.

Example format_message_first_only :
  format_message (mkAmbient "T" "h" 1) "{counter} {counter} {pid}{pid}" 5
  = "5 {counter} 1{pid}"%string.
Proof. reflexivity. Qed.

(** ** print_stats (lines 147-171) *)

Section Snapshot.

(** On binary64, [elapsed <= 0] excludes [elapsed > 0] (a NaN satisfies
    neither). *)
Lemma leb_zero_not_gt (e : float) :
  PrimFloat.leb e 0%float = true -> PrimFloat.ltb 0%float e = false.
Proof.
  rewrite leb_spec, ltb_spec.
  change (Prim2SF 0%float) with (S754_zero false).
  destruct (Prim2SF e) as [s|s| |s m x]; try destruct s; cbn; congruence.
Qed.

Lemma snapshot_positive (stats : Stats) (now : Z) (final : bool) :
  PrimFloat.ltb 0%float (elapsed_seconds stats now) = true ->
  snap_msg_rate (snapshot stats now final)
  = PrimFloat.div (to_double (messages_sent stats)) (elapsed_seconds stats now) /\
  snap_byte_rate (snapshot stats now final)
  = PrimFloat.div (to_double (bytes_sent stats)) (elapsed_seconds stats now).
Proof. intros H. unfold snapshot. cbn [snap_msg_rate snap_byte_rate]. now rewrite H. Qed.

Lemma snapshot_not_positive (stats : Stats) (now : Z) (final : bool) :
  PrimFloat.ltb 0%float (elapsed_seconds stats now) = false ->
  snap_msg_rate (snapshot stats now final) = 0%float /\
  snap_byte_rate (snapshot stats now final) = 0%float.
Proof. intros H. unfold snapshot. cbn [snap_msg_rate snap_byte_rate]. now rewrite H. Qed.

(** Less than a millisecond after [start_time] the elapsed time is 0. *)
Lemma elapsed_seconds_zero (stats : Stats) (now : Z) :
  0 <= now - start_time stats < 1000000 ->
  elapsed_seconds stats now = 0%float.
Proof.
  intros H. unfold elapsed_seconds.
  rewrite Z.quot_small by lia. reflexivity.
Qed.

End Snapshot.

(** C9: [print_stats] reads the clock once and prints one snapshot; the
    snapshot carries the three counters as loaded; when [elapsed > 0] the
    message rate is [messages / elapsed] and the byte rate is
    [bytes / elapsed] (binary64 division); when [elapsed <= 0] both rates
    are 0; and the [Stats] object is left as it was. *)
Theorem print_stats_snapshot (env : Env) (final : bool) (stats : Stats) (t : nat) :
  exists snap,
    print_stats env final stats t
    = (tt, stats, [EvNow (env_steady env t); EvStats snap]) /\
    snap_final snap = final /\
    snap_elapsed snap = elapsed_seconds stats (env_steady env t) /\
    snap_messages snap = messages_sent stats /\
    snap_bytes snap = bytes_sent stats /\
    snap_errors snap = errors stats /\
    (PrimFloat.ltb 0%float (snap_elapsed snap) = true ->
     snap_msg_rate snap
     = PrimFloat.div (to_double (messages_sent stats)) (snap_elapsed snap) /\
     snap_byte_rate snap
     = PrimFloat.div (to_double (bytes_sent stats)) (snap_elapsed snap)) /\
    (PrimFloat.leb (snap_elapsed snap) 0%float = true ->
     snap_msg_rate snap = 0%float /\ snap_byte_rate snap = 0%float).
Proof.
  exists (snapshot stats (env_steady env t) final).
  split; [reflexivity|]. do 5 (split; [reflexivity|]).
  split.
  - apply snapshot_positive.
  - intros H. apply snapshot_not_positive. now apply leb_zero_not_gt.
Qed.

Lemma print_stats_snapshot_witness :
  exists snap,
    print_stats env_steady_ok true (mkStats 7 300 1 0) 2%nat
    = (tt, mkStats 7 300 1 0, [EvNow 600000000; EvStats snap]) /\
    snap_msg_rate snap = PrimFloat.div (to_double 7) (snap_elapsed snap) /\
    snap_byte_rate snap = PrimFloat.div (to_double 300) (snap_elapsed snap).
Proof.
  destruct (print_stats_snapshot env_steady_ok true (mkStats 7 300 1 0) 2%nat)
    as (snap & E & _ & Hel & _ & _ & _ & Hpos & _).
  exists snap. split; [exact E|].
  apply Hpos. rewrite Hel. vm_compute. reflexivity.
Defined.

Example print_stats_at_start :
  snap_msg_rate (snapshot (mkStats 7 300 1 5000) 5999 true) = 0%float.
Proof. reflexivity. Qed.

Example print_stats_after_2s :
  snap_msg_rate (snapshot (mkStats 7 300 1 0) 2000000000 false) = 3.5%float.
Proof. reflexivity. Qed.

(** ** The functions of the run, unfolded once *)

Ltac run_unfold :=
  cbv [bind interact emit ret update_stats get_stats read_running steady_now
       sys_socket sys_connect sys_send sys_close call_format_message].

Section Unfold.

Variable env : Env.
Variable config : Config.

Lemma connect_to_socket_eq (path : string) (st : Stats) (t : nat) :
  connect_to_socket env path st t = (connect_result env t, st, connect_events env path t).
Proof.
  unfold connect_to_socket, connect_result, connect_events. run_unfold.
  destruct (env_socket env t <? 0); [reflexivity|].
  cbn [List.length].
  destruct (env_connect env (t + 1) <? 0); reflexivity.
Qed.

Lemma send_one_eq (l : Locals) (st : Stats) (t : nat) :
  send_one env config l st t =
  let msg := format_message (env_ambient env t) (message_format config) (counter l) in
  let sent := env_send env (t + 1) in
  let head := [EvFormat (counter l) msg; EvSend (sock l) (msg ++ nl) sent] in
  if sent <? 0 then
    let pre := (head ++ (if verbose config then [EvCerr ErrSending] else [])
                     ++ [EvClose (sock l); EvSleepFor 100])%list in
    let fd := connect_result env (t + List.length pre) in
    let es := (pre ++ connect_events env (socket_path config) (t + List.length pre))%list in
    if fd <? 0 then
      ((Some 1, with_sock (bump_counter l) fd), record_error st,
       (es ++ [EvCerr FailedToReconnect])%list)
    else ((None, with_sock (bump_counter l) fd), record_error st, es)
  else ((None, bump_counter l), record_success sent st, head).
Proof.
  unfold send_one. run_unfold. simpl.
  destruct (env_send env (t + 1) <? 0); [|reflexivity].
  destruct (verbose config); simpl;
    rewrite connect_to_socket_eq;
    match goal with
    | |- context [connect_result env ?a] =>
        match goal with
        | |- context [if connect_result env ?b <? 0 then (Some 1, _, _, _) else _] =>
            replace a with b by lia
        end
    end;
    destruct (connect_result env _ <? 0); simpl; rewrite ?app_nil_r; reflexivity.
Qed.

Lemma send_batch_S (n : nat) (l : Locals) (st : Stats) (t : nat) :
  send_batch env config (S n) l st t =
  if env_running env t then
    match send_one env config l st (t + 1)%nat with
    | ((Some code, l1), s1, es1) => ((Some code, l1), s1, EvRunning true :: es1)
    | ((None, l1), s1, es1) =>
        match send_batch env config n l1 s1 (t + 1 + List.length es1)%nat with
        | (y, s2, es2) => (y, s2, (EvRunning true :: es1 ++ es2)%list)
        end
    end
  else ((None, l), st, [EvRunning false]).
Proof.
  cbn [send_batch]. run_unfold. cbn [List.length].
  destruct (env_running env t); [|reflexivity]. cbn [negb List.app].
  destruct (send_one env config l st (t + 1)%nat) as [[[[code|] l1] s1] es1].
  - now rewrite app_nil_r.
  - destruct (send_batch env config n l1 s1 (t + 1 + List.length es1)%nat) as [[y s2] es2].
    reflexivity.
Qed.

Lemma tick_body_eq (iv ts : Z) (l : Locals) (st : Stats) (t : nat) :
  tick_body env config iv ts l st t =
  let now := env_steady env t in
  if Z.quot (now - ts) second >=? duration config then (Break l, st, [EvNow now])
  else
    match send_batch env config (Z.to_nat (batch_size config)) l st (t + 1)%nat with
    | ((Some code, _), s1, es1) => (Return code, s1, EvNow now :: es1)
    | ((None, l1), s1, es1) =>
        let t2 := (t + 1 + List.length es1)%nat in
        let now2 := env_steady env t2 in
        let printing := Z.quot (now2 - last_print_time l1) second >=? 1 in
        let pes := if printing
                   then [EvNow (env_steady env (t2 + 1));
                         EvStats (snapshot s1 (env_steady env (t2 + 1)) false)]
                   else [] in
        let deadline := wrap_i64 (next_batch_time l1 + 1000 * iv) in
        (Next (mkLocals (sock l1) (counter l1) deadline
                 (if printing then now2 else last_print_time l1)),
         s1,
         (EvNow now :: es1 ++ EvNow now2 :: pes ++ [EvSleepUntil deadline])%list)
    end.
Proof.
  unfold tick_body, print_stats, second. run_unfold. cbn [List.length]. cbn zeta.
  destruct (Z.quot (env_steady env t - ts) 1000000000 >=? duration config);
    [reflexivity|].
  destruct (send_batch env config (Z.to_nat (batch_size config)) l st (t + 1)%nat)
    as [[[[code|] l1] s1] es1].
  - now rewrite app_nil_r.
  - destruct (Z.quot (env_steady env (t + 1 + List.length es1)%nat - last_print_time l1)
                1000000000 >=? 1); reflexivity.
Qed.

Lemma main_loop_S (iv ts : Z) (fuel : nat) (l : Locals) (st : Stats) (t : nat) :
  main_loop env config iv ts (S fuel) l st t =
  if env_running env t then
    match tick_body env config iv ts l st (t + 1)%nat with
    | (Next l1, s1, es1) =>
        match main_loop env config iv ts fuel l1 s1 (t + 1 + List.length es1)%nat with
        | (y, s2, es2) => (y, s2, (EvRunning true :: es1 ++ es2)%list)
        end
    | (Break l1, s1, es1) => (LeftLoop l1, s1, EvRunning true :: es1)
    | (Return code, s1, es1) => (Returned code, s1, EvRunning true :: es1)
    end
  else (LeftLoop l, st, [EvRunning false]).
Proof.
  cbn [main_loop]. run_unfold. cbn [List.length].
  destruct (env_running env t); [|reflexivity]. cbn [negb List.app].
  destruct (tick_body env config iv ts l st (t + 1)%nat) as [[[l1|l1|code] s1] es1];
    try now rewrite app_nil_r.
  destruct (main_loop env config iv ts fuel l1 s1 (t + 1 + List.length es1)%nat)
    as [[y s2] es2].
  reflexivity.
Qed.

Lemma run_eq (fuel : nat) :
  run env config fuel =
  let st0 := mkStats 0 0 0 (env_steady env 0) in
  let fd := connect_result env 1 in
  if fd <? 0 then
    (Exit 1, st0, EvNow (env_steady env 0) :: connect_events env (socket_path config) 1)
  else
    match batch_interval_us config with
    | None => (Trap, st0, preamble env config)
    | Some iv =>
        let ts := env_steady env 4 in
        match main_loop env config iv ts fuel (mkLocals fd 0 ts ts) st0 5%nat with
        | (LeftLoop l, s1, es) =>
            let tp := (5 + List.length es)%nat in
            (Exit 0, s1,
             (preamble env config ++ EvNow ts :: es
              ++ [EvNow (env_steady env tp);
                  EvStats (snapshot s1 (env_steady env tp) true);
                  EvClose (sock l)])%list)
        | (Returned code, s1, es) => (Exit code, s1, (preamble env config ++ EvNow ts :: es)%list)
        | (NoFuel, s1, es) => (OutOfFuel, s1, (preamble env config ++ EvNow ts :: es)%list)
        end
    end.
Proof.
  unfold run, run_test, print_stats, preamble. run_unfold.
  cbn [List.length Nat.add]. rewrite connect_to_socket_eq.
  cbn zeta.
  unfold connect_result, connect_events.
  destruct (env_socket env 1 <? 0) eqn:Hs; [reflexivity|].
  destruct (env_connect env (1 + 1) <? 0) eqn:Hc; [reflexivity|].
  rewrite Hs. cbn [List.length Nat.add List.app init_stats messages_sent bytes_sent errors].
  destruct (batch_interval_us config) as [iv|]; [|reflexivity].
  cbn [List.length Nat.add List.app].
  match goal with
  | |- context [main_loop ?a ?b ?c ?d ?e ?f ?g ?h] =>
      destruct (main_loop a b c d e f g h) as [[[l1|code|] s1] es]
  end;
    cbn [List.app List.length Nat.add]; rewrite ?app_nil_r; reflexivity.
Qed.

End Unfold.

(** ** A duration of zero (C3) *)

(** C3, as stated, fails: with [duration = 0] and a flag that is never
    cleared, the first iteration reads the flag as set, the duration check
    fires, and the run ends with exit code 0 having sent nothing. *)
Lemma zero_duration_stops_at_once :
  (forall t, env_running env_steady_ok t = true) /\
  outcome_of (run env_steady_ok (mkConfig "/tmp/s" "{counter}" 10 0 2 false) 5) = Exit 0 /\
  flag_reads (trace_of (run env_steady_ok (mkConfig "/tmp/s" "{counter}" 10 0 2 false) 5))
  = [true] /\
  sends (trace_of (run env_steady_ok (mkConfig "/tmp/s" "{counter}" 10 0 2 false) 5)) = [].
Proof. repeat split. Qed.

(** C3, amended: with a duration of 0 (or below), a steady clock that does
    not run backwards, an established connection and a computable
    interval, the duration check of the first iteration fires: for every
    positive bound on the iterations the run exits with 0, no message is
    sent, and the final statistics are the only ones printed -- whether or
    not the flag is ever cleared. *)
Theorem zero_duration_sends_nothing (env : Env) (config : Config) (fuel : nat) :
  duration config <= 0 ->
  (forall i j, (i <= j)%nat -> env_steady env i <= env_steady env j) ->
  0 <= connect_result env 1 ->
  batch_interval_us config <> None ->
  outcome_of (run env config (S fuel)) = Exit 0 /\
  sends (trace_of (run env config (S fuel))) = [] /\
  messages_sent (stats_of (run env config (S fuel))) = 0 /\
  exists snap, snapshots (trace_of (run env config (S fuel))) = [snap]
               /\ snap_final snap = true.
Proof.
  intros Hd Hmono Hconn Hiv.
  rewrite run_eq. cbn zeta.
  destruct (Z.ltb_spec (connect_result env 1) 0) as [|_]; [lia|].
  destruct (batch_interval_us config) as [iv|]; [|congruence].
  assert (Hpre : exists r, connect_events env (socket_path config) 1
                           = [EvSocket (env_socket env 1);
                              EvConnect (env_socket env 1) (socket_path config) r]).
  { unfold connect_result in Hconn. unfold connect_events.
    destruct (env_socket env 1 <? 0); [lia|].
    destruct (env_connect env (1 + 1) <? 0); [lia|]. eauto. }
  destruct Hpre as [r Hpre].
  rewrite main_loop_S.
  destruct (env_running env 5).
  - rewrite tick_body_eq. cbn zeta.
    assert (Hge : (Z.quot (env_steady env (5 + 1) - env_steady env 4) second
                   >=? duration config) = true).
    { apply Z.geb_le.
      assert (0 <= Z.quot (env_steady env (5 + 1) - env_steady env 4) second).
      { apply Z.quot_pos; [|unfold second; lia].
        specialize (Hmono 4%nat (5 + 1)%nat ltac:(lia)). lia. }
      lia. }
    rewrite Hge. unfold preamble. rewrite Hpre. cbn. repeat split. eauto.
  - unfold preamble. rewrite Hpre. cbn. repeat split. eauto.
Qed.

Lemma zero_duration_sends_nothing_witness :
  outcome_of (run env_steady_ok (mkConfig "/tmp/s" "{counter}" 10 0 2 false) 1) = Exit 0.
Proof.
  apply (zero_duration_sends_nothing env_steady_ok
           (mkConfig "/tmp/s" "{counter}" 10 0 2 false) 0).
  - simpl. lia.
  - intros i j Hij. simpl. lia.
  - vm_compute. discriminate.
  - vm_compute. discriminate.
Defined.

(** ** A reconnect that fails (C2) *)

(** C2 at the failing input: the run ends at once with exit code 1 (for
    any bound of at least one iteration), the error is counted, and the
    trace ends with the message of line 223: the final statistics of line
    244 are never printed. *)
Theorem reconnect_failure_skips_final_stats (fuel : nat) :
  run env_reconnect_fails (mkConfig "/tmp/s" "{counter}" 10 60 2 false) (S fuel)
  = (Exit 1, mkStats 0 0 1 0,
     [EvNow 0; EvSocket 3; EvConnect 3 "/tmp/s" 0; EvBanner "/tmp/s" 10 60 2;
      EvNow 4000; EvRunning true; EvNow 6000; EvRunning true;
      EvFormat 0 "0"; EvSend 3 ("0" ++ nl) (-1);
      EvClose 3; EvSleepFor 100; EvSocket (-1); EvCerr ErrCreatingSocket;
      EvCerr FailedToReconnect]) /\
  snapshots (trace_of (run env_reconnect_fails
                         (mkConfig "/tmp/s" "{counter}" 10 60 2 false) (S fuel))) = [].
Proof.
  assert (E : run env_reconnect_fails (mkConfig "/tmp/s" "{counter}" 10 60 2 false) (S fuel)
              = (Exit 1, mkStats 0 0 1 0,
                 [EvNow 0; EvSocket 3; EvConnect 3 "/tmp/s" 0; EvBanner "/tmp/s" 10 60 2;
                  EvNow 4000; EvRunning true; EvNow 6000; EvRunning true;
                  EvFormat 0 "0"; EvSend 3 ("0" ++ nl) (-1);
                  EvClose 3; EvSleepFor 100; EvSocket (-1); EvCerr ErrCreatingSocket;
                  EvCerr FailedToReconnect])).
  { rewrite run_eq. cbn zeta.
    change (connect_result env_reconnect_fails 1 <? 0) with false. cbv iota.
    change (batch_interval_us (mkConfig "/tmp/s" "{counter}" 10 60 2 false))
      with (Some 200000).
    cbv iota. rewrite main_loop_S.
    change (env_running env_reconnect_fails 5) with true. cbv iota.
    rewrite tick_body_eq. reflexivity. }
  rewrite E. split; reflexivity.
Qed.

(** ** Observations distribute over concatenation *)

Section Observations.

Lemma renders_app (a b : list Event) : renders (a ++ b) = (renders a ++ renders b)%list.
Proof. induction a as [|[] a IH]; simpl; congruence. Qed.

Lemma sends_app (a b : list Event) : sends (a ++ b) = (sends a ++ sends b)%list.
Proof. induction a as [|[] a IH]; simpl; congruence. Qed.

Lemma deadlines_app (a b : list Event) :
  deadlines (a ++ b) = (deadlines a ++ deadlines b)%list.
Proof. induction a as [|[] a IH]; simpl; congruence. Qed.

Lemma socket_calls_app (a b : list Event) :
  socket_calls (a ++ b) = (socket_calls a ++ socket_calls b)%list.
Proof. induction a as [|[] a IH]; simpl; congruence. Qed.

Lemma snapshots_app (a b : list Event) :
  snapshots (a ++ b) = (snapshots a ++ snapshots b)%list.
Proof. induction a as [|[] a IH]; simpl; congruence. Qed.

Lemma sends_after_app (k : nat) (a b : list Event) :
  sends_after k (a ++ b)
  = (sends_after k a + sends_after (k - List.length a) b)%nat.
Proof.
  unfold sends_after. rewrite skipn_app, filter_app, List.length_app. reflexivity.
Qed.

Lemma sends_after_cons (k : nat) (e : Event) (es : list Event) :
  sends_after (S k) (e :: es) = sends_after k es.
Proof. reflexivity. Qed.

(** A [send] at or after position [k] means the list reaches beyond [k]. *)
Lemma sends_after_pos (k : nat) (es : list Event) :
  (0 < sends_after k es)%nat -> (k < List.length es)%nat.
Proof.
  unfold sends_after. intros H.
  destruct (Nat.lt_ge_cases k (List.length es)) as [|Hge]; [assumption|].
  rewrite skipn_all2 in H by assumption. simpl in H. lia.
Qed.

Lemma sends_after_mono (k : nat) (es : list Event) :
  (sends_after k es <= sends_after 0 es)%nat.
Proof.
  unfold sends_after. revert k. induction es as [|e es IH]; intros [|k]; simpl; auto.
  specialize (IH k). simpl in IH. destruct (is_send e); simpl; lia.
Qed.

Lemma sends_after_0 (es : list Event) : sends_after 0 es = List.length (sends es).
Proof.
  unfold sends_after. simpl. induction es as [|[] es IH]; simpl; auto.
Qed.

Lemma connect_events_quiet (env : Env) (path : string) (t : nat) :
  renders (connect_events env path t) = [] /\
  sends (connect_events env path t) = [] /\
  deadlines (connect_events env path t) = [] /\
  snapshots (connect_events env path t) = [] /\
  socket_calls (connect_events env path t) = [env_socket env t].
Proof.
  unfold connect_events.
  destruct (env_socket env t <? 0); [now cbn|].
  destruct (env_connect env (t + 1) <? 0); now cbn.
Qed.

Lemma connect_result_cases (env : Env) (t : nat) :
  connect_result env t = -1 \/
  (connect_result env t = env_socket env t /\ 0 <= env_socket env t /\
   0 <= env_connect env (t + 1)).
Proof.
  unfold connect_result.
  destruct (Z.ltb_spec (env_socket env t) 0); auto.
  destruct (Z.ltb_spec (env_connect env (t + 1)) 0); auto.
Qed.

End Observations.

(** ** One pass through the body of the for loop *)

Section SendOne.

Variable env : Env.
Variable config : Config.

(** What one iteration leaves in the trace and in the locals, whichever
    way the [send] went. *)
Lemma send_one_shape (l : Locals) (st : Stats) (t : nat)
      (x : option Z * Locals) (st' : Stats) (es : list Event) :
  send_one env config l st t = (x, st', es) ->
  let msg := format_message (env_ambient env t) (message_format config) (counter l) in
  exists tail,
    es = (EvFormat (counter l) msg
          :: EvSend (sock l) (msg ++ nl) (env_send env (t + 1)) :: tail)%list /\
    renders tail = [] /\ sends tail = [] /\ deadlines tail = [] /\
    snapshots tail = [] /\
    counter (snd x) = wrap_u64 (counter l + 1) /\
    next_batch_time (snd x) = next_batch_time l /\
    last_print_time (snd x) = last_print_time l.
Proof.
  rewrite send_one_eq. cbn zeta. intros H.
  pose proof (connect_events_quiet env (socket_path config)) as Q.
  destruct (env_send env (t + 1) <? 0).
  - destruct (verbose config); destruct (connect_result env _ <? 0);
      injection H as <- <- <-; cbn [List.app List.length];
      eexists; (split; [reflexivity|]);
      cbn [renders sends deadlines snapshots];
      rewrite ?renders_app, ?sends_app, ?deadlines_app, ?snapshots_app;
      match goal with
      | |- context [connect_events env _ ?k] =>
          destruct (Q k) as (-> & -> & -> & -> & _)
      end;
      cbn; repeat split.
  - injection H as <- <- <-. exists []. cbn. repeat split.
Qed.

End SendOne.

(** ** The counter sequence (C4) *)

Section Counting.

Variable env : Env.
Variable config : Config.

Lemma counts_from_app (c : Z) (m1 m2 : nat) :
  counts_from c (m1 + m2)
  = (counts_from c m1 ++ counts_from (Nat.iter m1 next_counter c) m2)%list.
Proof.
  revert c. induction m1 as [|m1 IH]; intros c; [reflexivity|].
  cbn [Nat.add counts_from List.app]. rewrite IH.
  now rewrite Nat.iter_succ_r.
Qed.

Lemma counted_quiet (c : Z) (es : list Event) :
  renders es = [] -> sends es = [] -> counted config c es c.
Proof. intros R S. unfold counted. rewrite R, S. cbn. auto. Qed.

Lemma counted_app (c c1 c2 : Z) (a b : list Event) :
  counted config c a c1 -> counted config c1 b c2 -> counted config c (a ++ b) c2.
Proof.
  intros (A1 & A2 & A3 & A4) (B1 & B2 & B3 & B4). unfold counted.
  rewrite renders_app, sends_app, !map_app, List.length_app, counts_from_app.
  subst c1. rewrite A1, B1, A3, B3. repeat split.
  - subst c2. now rewrite Nat.add_comm, Nat.iter_add.
  - apply Forall_app. now split.
Qed.

Lemma counted_cons_quiet (c c' : Z) (e : Event) (es : list Event) :
  renders [e] = [] -> sends [e] = [] -> counted config c es c' -> counted config c (e :: es) c'.
Proof.
  intros R S H. change (e :: es) with ([e] ++ es)%list.
  eapply counted_app; [apply counted_quiet|]; eassumption.
Qed.

Lemma send_one_counted (l : Locals) (st : Stats) (t : nat)
      (x : option Z * Locals) (st' : Stats) (es : list Event) :
  send_one env config l st t = (x, st', es) ->
  counted config (counter l) es (counter (snd x)).
Proof.
  intros H. destruct (send_one_shape _ _ _ _ _ _ _ _ H)
    as (tail & -> & R & S & _ & _ & C & _).
  unfold counted. cbn [renders sends]. rewrite R, S. cbn.
  repeat split; auto. constructor; [|constructor]. cbn. eauto.
Qed.

Lemma send_batch_counted (n : nat) (l : Locals) (st : Stats) (t : nat)
      (x : option Z * Locals) (st' : Stats) (es : list Event) :
  send_batch env config n l st t = (x, st', es) ->
  counted config (counter l) es (counter (snd x)).
Proof.
  revert l st t x st' es. induction n as [|n IH]; intros l st t x st' es H.
  - injection H as <- <- <-. now apply counted_quiet.
  - rewrite send_batch_S in H. destruct (env_running env t).
    + destruct (send_one env config l st _) as [[[o l1] s1] es1] eqn:E1.
      apply send_one_counted in E1. cbn [snd] in E1.
      destruct o as [code|].
      * injection H as <- <- <-. now apply counted_cons_quiet.
      * destruct (send_batch env config n l1 s1 _)
          as [[y s2] es2] eqn:E2.
        apply IH in E2. injection H as <- <- <-.
        apply counted_cons_quiet; auto. eapply counted_app; eassumption.
    + injection H as <- <- <-. now apply counted_quiet.
Qed.

Lemma tick_body_counted (iv ts : Z) (l : Locals) (st : Stats) (t : nat)
      (x : Flow) (st' : Stats) (es : list Event) :
  tick_body env config iv ts l st t = (x, st', es) ->
  exists c', counted config (counter l) es c' /\ flow_counter c' x.
Proof.
  rewrite tick_body_eq. cbn zeta. intros H.
  destruct (_ >=? duration config).
  - injection H as <- <- <-. exists (counter l). split; [|reflexivity].
    now apply counted_quiet.
  - destruct (send_batch env config _ l st _) as [[[o l1] s1] es1] eqn:E1.
    apply send_batch_counted in E1. cbn [snd] in E1.
    destruct o as [code|]; injection H as <- <- <-; exists (counter l1);
      (split; [|reflexivity]); apply counted_cons_quiet; auto.
    eapply counted_app; [eassumption|].
    apply counted_quiet; destruct (_ >=? 1); reflexivity.
Qed.

Lemma main_loop_counted (iv ts : Z) (fuel : nat) (l : Locals) (st : Stats) (t : nat)
      (x : LoopExit) (st' : Stats) (es : list Event) :
  main_loop env config iv ts fuel l st t = (x, st', es) ->
  exists c', counted config (counter l) es c'.
Proof.
  revert l st t x st' es. induction fuel as [|fuel IH]; intros l st t x st' es H.
  - injection H as <- <- <-. exists (counter l). now apply counted_quiet.
  - rewrite main_loop_S in H. destruct (env_running env t).
    + destruct (tick_body env config iv ts l st _) as [[f s1] es1] eqn:E1.
      apply tick_body_counted in E1. destruct E1 as (c1 & C1 & F1).
      destruct f as [l1|l1|code].
      * destruct (main_loop env config iv ts fuel l1 s1 _)
          as [[y s2] es2] eqn:E2.
        apply IH in E2. destruct E2 as (c2 & C2). injection H as <- <- <-.
        cbn in F1. subst c1. exists c2.
        apply counted_cons_quiet; auto. eapply counted_app; eassumption.
      * injection H as <- <- <-. exists c1. now apply counted_cons_quiet.
      * injection H as <- <- <-. exists c1. now apply counted_cons_quiet.
    + injection H as <- <- <-. exists (counter l). now apply counted_quiet.
Qed.

Lemma preamble_quiet :
  renders (preamble env config) = [] /\ sends (preamble env config) = [] /\
  deadlines (preamble env config) = [] /\ snapshots (preamble env config) = [].
Proof.
  unfold preamble. cbn [renders sends deadlines snapshots].
  rewrite renders_app, sends_app, deadlines_app, snapshots_app.
  destruct (connect_events_quiet env (socket_path config) 1) as (-> & -> & -> & -> & _).
  now cbn.
Qed.

Lemma run_counted (fuel : nat) :
  exists c', counted config 0 (trace_of (run env config fuel)) c'.
Proof.
  rewrite run_eq. cbn zeta.
  destruct (connect_events_quiet env (socket_path config) 1) as (R & S & _).
  destruct preamble_quiet as (PR & PS & _).
  destruct (connect_result env 1 <? 0).
  { exists 0. apply counted_quiet; cbn; assumption. }
  destruct (batch_interval_us config) as [iv|].
  2:{ exists 0. apply counted_quiet; cbn; assumption. }
  destruct (main_loop env config iv _ fuel _ _ _) as [[x s1] es] eqn:E.
  apply main_loop_counted in E. destruct E as (c' & C). cbn [counter] in C.
  exists c'.
  destruct x as [l1|code|]; cbn [trace_of snd];
    (eapply counted_app; [apply counted_quiet; eassumption|]);
    apply counted_cons_quiet; auto.
  eapply counted_app; [eassumption|]. now apply counted_quiet.
Qed.

Lemma counts_from_nth (c : Z) (m k : nat) (v : Z) :
  nth_error (counts_from c m) k = Some v -> v = Nat.iter k next_counter c.
Proof.
  revert c k. induction m as [|m IH]; intros c [|k] H; cbn in H; try discriminate.
  - now injection H as <-.
  - apply IH in H. now rewrite Nat.iter_succ_r.
Qed.

Lemma iter_next_counter (k : nat) :
  Nat.iter k next_counter 0 = wrap_u64 (Z.of_nat k).
Proof.
  induction k as [|k IH]; [reflexivity|].
  rewrite Nat.iter_succ, IH. unfold next_counter, wrap_u64.
  rewrite Zplus_mod_idemp_l. f_equal. lia.
Qed.

End Counting.

(** C4: the message with (zero-based) index [k] of a run -- the [k]-th
    call of [format_message], for [k] below 2^64 -- is rendered with the
    counter value [k], whatever sends failed and whatever reconnects took
    place before it; it is the rendering of the configured template at
    that value, and it is the payload, with the line terminator appended,
    of the [k]-th [send].  So message N carries N-1, and the sequence is
    strictly increasing without duplicates or gaps. *)
Theorem counter_is_message_index (env : Env) (config : Config) (fuel k : nat)
        (c : Z) (msg : string) :
  nth_error (renders (trace_of (run env config fuel))) k = Some (c, msg) ->
  Z.of_nat k < 2 ^ 64 ->
  c = Z.of_nat k /\
  (exists amb, msg = format_message amb (message_format config) (Z.of_nat k)) /\
  (exists fd r, nth_error (sends (trace_of (run env config fuel))) k
                = Some (fd, (msg ++ nl)%string, r)).
Proof.
  intros Hk Hsmall.
  destruct (run_counted env config fuel) as (c' & H1 & _ & H3 & H4).
  assert (Hc : c = Z.of_nat k).
  { assert (E : nth_error (map fst (renders (trace_of (run env config fuel)))) k = Some c)
      by (rewrite nth_error_map, Hk; reflexivity).
    rewrite H1 in E. apply counts_from_nth in E.
    rewrite iter_next_counter in E. unfold wrap_u64 in E.
    rewrite Z.mod_small in E by lia. exact E. }
  split; [exact Hc|]. split.
  - rewrite Forall_forall in H4. destruct (H4 (c, msg)) as [amb Hamb].
    + eapply nth_error_In; eassumption.
    + exists amb. cbn in Hamb. now rewrite <- Hc.
  - assert (E : nth_error (map payload_of (sends (trace_of (run env config fuel)))) k
                = Some (msg ++ nl)%string)
      by (rewrite H3, nth_error_map, Hk; reflexivity).
    rewrite nth_error_map in E.
    destruct (nth_error (sends (trace_of (run env config fuel))) k)
      as [[[fd p] r]|]; [|discriminate].
    cbn in E. injection E as ->. eauto.
Qed.

Lemma counter_is_message_index_witness :
  3 = Z.of_nat 3 /\
  (exists amb, "3"%string = format_message amb "{counter}" (Z.of_nat 3)) /\
  (exists fd r,
      nth_error (sends (trace_of (run env_steady_ok
                                    (mkConfig "/tmp/s" "{counter}" 10 60 2 false) 2))) 3
      = Some (fd, ("3" ++ nl)%string, r)).
Proof.
  apply (counter_is_message_index env_steady_ok
           (mkConfig "/tmp/s" "{counter}" 10 60 2 false) 2 3 3 "3").
  - vm_compute. reflexivity.
  - vm_compute. reflexivity.
Defined.

(** A failed [send] uses up its counter value: the message is not sent
    again, and the next one carries the next value. *)
Example counters_with_a_failed_send :
  sends (trace_of (run (mkEnv (fun _ => true) (fun t => Z.of_nat t * 1000)
                              (fun _ => amb0) (fun _ => 3) (fun _ => 0)
                              (fun t => if Nat.eqb t 9 then -1 else 2))
                       (mkConfig "/tmp/s" "{counter}" 10 60 3 false) 1))
  = [(3, ("0" ++ nl)%string, -1); (3, ("1" ++ nl)%string, 2); (3, ("2" ++ nl)%string, 2)].
Proof. reflexivity. Qed.

(** ** The schedule of batch boundaries (C6) *)

Section Pacing.

Variable env : Env.
Variable config : Config.








Lemma send_batch_paced (n : nat) (l : Locals) (st : Stats) (t : nat)
      (x : option Z * Locals) (st' : Stats) (es : list Event) :
  send_batch env config n l st t = (x, st', es) ->
  deadlines es = [] /\ next_batch_time (snd x) = next_batch_time l.
Proof.
  revert l st t x st' es. induction n as [|n IH]; intros l st t x st' es H.
  - injection H as <- <- <-. auto.
  - rewrite send_batch_S in H. destruct (env_running env t).
    + destruct (send_one env config l st _) as [[[o l1] s1] es1] eqn:E1.
      apply send_one_shape in E1. cbn zeta in E1.
      destruct E1 as (tail & -> & _ & _ & D & _ & _ & N & _). cbn [snd] in N.
      destruct o as [code|].
      * injection H as <- <- <-. cbn. auto.
      * destruct (send_batch env config n l1 s1 _) as [[y s2] es2] eqn:E2.
        apply IH in E2. destruct E2 as (D2 & N2). injection H as <- <- <-.
        cbn [deadlines List.app]. rewrite deadlines_app, D, D2.
        split; [reflexivity | congruence].
    + injection H as <- <- <-. auto.
Qed.

(** An iteration that runs to its end advances the boundary by the
    interval and ends with the one [sleep_until] of the iteration; an
    iteration left by [break] or [return] does not sleep. *)
Lemma tick_body_sleeps (iv ts : Z) (l : Locals) (st : Stats) (t : nat)
      (x : Flow) (st' : Stats) (es : list Event) :
  tick_body env config iv ts l st t = (x, st', es) ->
  match x with
  | Next l' =>
      next_batch_time l' = wrap_i64 (next_batch_time l + 1000 * iv) /\
      exists body, es = (body ++ [EvSleepUntil (next_batch_time l')])%list /\
                   deadlines body = [] /\
                   exists es1 tail, body = (EvNow (env_steady env t) :: es1 ++ tail)%list /\
                                    sends tail = [] /\
                                    exists y s1, send_batch env config
                                                   (Z.to_nat (batch_size config)) l st (t + 1)%nat
                                                 = (y, s1, es1)
  | _ => deadlines es = []
  end.
Proof.
  rewrite tick_body_eq. cbn zeta. intros H.
  destruct (_ >=? duration config).
  - injection H as <- <- <-. reflexivity.
  - destruct (send_batch env config _ l st _) as [[[o l1] s1] es1] eqn:E1.
    pose proof (send_batch_paced _ _ _ _ _ _ _ E1) as (D & N). cbn [snd] in N.
    destruct o as [code|]; injection H as <- <- <-; cbn [deadlines]; auto.
    cbn [next_batch_time]. rewrite N. split; [reflexivity|].
    match goal with
    | |- context [EvNow ?n2 :: ?pes ++ [EvSleepUntil ?d]] =>
        exists (EvNow (env_steady env t) :: es1 ++ EvNow n2 :: pes)%list;
        split; [cbn [List.app]; rewrite <- app_assoc; reflexivity|];
        split; [cbn [deadlines]; rewrite deadlines_app, D; cbn [deadlines List.app];
                destruct (_ >=? 1); reflexivity|];
        exists es1, (EvNow n2 :: pes)%list;
        split; [reflexivity|];
        split; [destruct (_ >=? 1); reflexivity | eauto]
    end.
Qed.






End Pacing.




Example sleep_deadlines_example :
  deadlines (trace_of (run env_steady_ok (mkConfig "/tmp/s" "{counter}" 10 60 2 false) 3))
  = [1400000000; 1600000000; 1800000000].
Proof. reflexivity. Qed.

(** ** Cancellation (C8) *)

Section Cancel.

Variable env : Env.
Variable config : Config.

(** The flag is cleared at tick [s]: every read from then on sees it. *)
Variable s : nat.
Hypothesis cancelled : forall t, (s <= t)%nat -> env_running env t = false.

Lemma quiet_sends_after (k : nat) (es : list Event) :
  sends es = [] -> sends_after k es = O.
Proof.
  intros H. pose proof (sends_after_mono k es) as M.
  rewrite sends_after_0, H in M. simpl in M. lia.
Qed.

Lemma send_one_late (l : Locals) (st : Stats) (t : nat)
      (x : option Z * Locals) (st' : Stats) (es : list Event) (k : nat) :
  send_one env config l st t = (x, st', es) ->
  (sends_after k es <= 1)%nat /\
  ((2 <= k)%nat -> sends_after k es = O) /\
  (2 <= List.length es)%nat.
Proof.
  intros H. apply send_one_shape in H. cbn zeta in H.
  destruct H as (tail & -> & _ & S & _). repeat split.
  - pose proof (sends_after_mono k (EvFormat (counter l)
            (format_message (env_ambient env t) (message_format config) (counter l))
          :: EvSend (sock l)
               (format_message (env_ambient env t) (message_format config) (counter l)
                ++ nl) (env_send env (t + 1)) :: tail)) as M.
    rewrite sends_after_0 in M. cbn [sends] in M. rewrite S in M.
    cbn [List.length] in M. exact M.
  - intros Hk. destruct k as [|[|k]]; try lia.
    rewrite !sends_after_cons. now apply quiet_sends_after.
  - cbn. lia.
Qed.

Ltac quiet_case :=
  split; [rewrite quiet_sends_after by reflexivity; lia | reflexivity].

Lemma send_batch_late (n : nat) (l : Locals) (st : Stats) (t : nat)
      (x : option Z * Locals) (st' : Stats) (es : list Event) :
  send_batch env config n l st t = (x, st', es) ->
  (sends_after (s - t) es <= 1)%nat /\ ((s <= t)%nat -> sends es = []).
Proof.
  revert l st t x st' es. induction n as [|n IH]; intros l st t x st' es H.
  - injection H as <- <- <-. quiet_case.
  - rewrite send_batch_S in H. destruct (env_running env t) eqn:R.
    + assert (Hlt : (t < s)%nat).
      { destruct (Nat.lt_ge_cases t s) as [|Hge]; [assumption|].
        rewrite (cancelled _ Hge) in R. discriminate. }
      split; [|lia].
      replace (s - t)%nat with (S (s - (t + 1))) by lia.
      destruct (send_one env config l st _) as [[[o l1] s1] es1] eqn:E1.
      destruct (send_one_late _ _ _ _ _ _ (s - (t + 1)) E1) as (A1 & A2 & A3).
      destruct o as [code|].
      * injection H as <- <- <-. now rewrite sends_after_cons.
      * destruct (send_batch env config n l1 s1 _) as [[y s2] es2] eqn:E2.
        apply IH in E2. destruct E2 as (B1 & B2). injection H as <- <- <-.
        rewrite sends_after_cons, sends_after_app.
        replace (s - (t + 1) - List.length es1)%nat
          with (s - (t + 1 + List.length es1))%nat by lia.
        destruct (Nat.le_gt_cases 2 (s - (t + 1))) as [Hk|Hk].
        -- rewrite (A2 Hk). lia.
        -- rewrite (quiet_sends_after _ es2) by (apply B2; lia). lia.
    + injection H as <- <- <-. quiet_case.
Qed.

Lemma tick_body_late (iv ts : Z) (l : Locals) (st : Stats) (t : nat)
      (x : Flow) (st' : Stats) (es : list Event) :
  tick_body env config iv ts l st t = (x, st', es) ->
  (sends_after (s - t) es <= 1)%nat /\ ((s <= t + 1)%nat -> sends es = []).
Proof.
  rewrite tick_body_eq. cbn zeta. intros H.
  destruct (_ >=? duration config).
  - injection H as <- <- <-. quiet_case.
  - destruct (send_batch env config _ l st _) as [[[o l1] s1] es1] eqn:E1.
    apply send_batch_late in E1. destruct E1 as (A1 & A2).
    assert (G : forall tail, sends tail = [] ->
                (sends_after (s - t) (EvNow (env_steady env t) :: es1 ++ tail) <= 1)%nat
                /\ ((s <= t + 1)%nat ->
                    sends (EvNow (env_steady env t) :: es1 ++ tail) = [])).
    { intros tail Q. split.
      - destruct (s - t)%nat as [|k] eqn:Ek.
        + rewrite sends_after_0. cbn [sends]. rewrite sends_app, Q, A2 by lia.
          simpl. lia.
        + rewrite sends_after_cons, sends_after_app.
          rewrite (quiet_sends_after _ tail Q).
          replace k with (s - (t + 1))%nat by lia. lia.
      - intros Hs. cbn [sends]. now rewrite sends_app, Q, A2. }
    destruct o as [code|]; injection H as <- <- <-.
    + specialize (G [] eq_refl). now rewrite app_nil_r in G.
    + apply G. destruct (_ >=? 1); reflexivity.
Qed.

Lemma main_loop_late (iv ts : Z) (fuel : nat) (l : Locals) (st : Stats) (t : nat)
      (x : LoopExit) (st' : Stats) (es : list Event) :
  main_loop env config iv ts fuel l st t = (x, st', es) ->
  (sends_after (s - t) es <= 1)%nat /\ ((s <= t)%nat -> sends es = []).
Proof.
  revert l st t x st' es. induction fuel as [|fuel IH]; intros l st t x st' es H.
  - injection H as <- <- <-. quiet_case.
  - rewrite main_loop_S in H. destruct (env_running env t) eqn:R.
    + assert (Hlt : (t < s)%nat).
      { destruct (Nat.lt_ge_cases t s) as [|Hge]; [assumption|].
        rewrite (cancelled _ Hge) in R. discriminate. }
      split; [|lia].
      replace (s - t)%nat with (S (s - (t + 1))) by lia.
      destruct (tick_body env config iv ts l st _) as [[f s1] es1] eqn:E1.
      apply tick_body_late in E1. destruct E1 as (A1 & A2).
      destruct f as [l1|l1|code].
      * destruct (main_loop env config iv ts fuel l1 s1 _) as [[y s2] es2] eqn:E2.
        apply IH in E2. destruct E2 as (B1 & B2). injection H as <- <- <-.
        rewrite sends_after_cons, sends_after_app.
        replace (s - (t + 1) - List.length es1)%nat
          with (s - (t + 1 + List.length es1))%nat by lia.
        destruct (Nat.eq_0_gt_0_cases (sends_after (s - (t + 1)) es1)) as [Z0|Pos].
        -- lia.
        -- apply sends_after_pos in Pos.
           rewrite (quiet_sends_after _ es2) by (apply B2; lia). lia.
      * injection H as <- <- <-. now rewrite sends_after_cons.
      * injection H as <- <- <-. now rewrite sends_after_cons.
    + injection H as <- <- <-. quiet_case.
Qed.

Lemma run_late (fuel : nat) :
  (sends_after s (trace_of (run env config fuel)) <= 1)%nat.
Proof.
  rewrite run_eq. cbn zeta.
  destruct (connect_events_quiet env (socket_path config) 1) as (_ & S & _).
  destruct (preamble_quiet env config) as (_ & PS & _).
  destruct (Z.ltb_spec (connect_result env 1) 0) as [|Hc].
  { cbn [trace_of snd]. rewrite quiet_sends_after; auto. }
  destruct (batch_interval_us config) as [iv|].
  2:{ cbn [trace_of snd]. rewrite quiet_sends_after; auto. }
  assert (L : List.length (preamble env config) = 4%nat).
  { unfold preamble, connect_events. unfold connect_result in Hc.
    destruct (env_socket env 1 <? 0); [lia|].
    destruct (env_connect env (1 + 1) <? 0); [lia|]. reflexivity. }
  destruct (main_loop env config iv _ fuel _ _ _) as [[x s1] es] eqn:E.
  apply main_loop_late in E. destruct E as (A1 & A2).
  assert (G : forall tail, sends tail = [] ->
              (sends_after s (preamble env config
                              ++ EvNow (env_steady env 4) :: es ++ tail) <= 1)%nat).
  { intros tail Q. rewrite sends_after_app, L.
    rewrite (quiet_sends_after _ (preamble env config)) by assumption.
    destruct (s - 4)%nat as [|k] eqn:Ek.
    - rewrite sends_after_0. cbn [sends]. rewrite sends_app, Q, A2 by lia.
      simpl. lia.
    - rewrite sends_after_cons, sends_after_app, (quiet_sends_after _ tail Q).
      replace k with (s - 5)%nat by lia. lia. }
  destruct x as [l1|code|]; cbn [trace_of snd].
  - now apply G.
  - specialize (G [] eq_refl). now rewrite app_nil_r in G.
  - specialize (G [] eq_refl). now rewrite app_nil_r in G.
Qed.

End Cancel.

(** C8: the flag is read before every [send] of a batch, so when it is
    cleared at tick [s] (every read from [s] on returns [false]), at most
    one [send] takes place at or after tick [s] in the whole run: the one
    whose flag read had just passed. *)
Theorem cancel_within_one_message (env : Env) (config : Config) (fuel s : nat) :
  (forall t, (s <= t)%nat -> env_running env t = false) ->
  (sends_after s (trace_of (run env config fuel)) <= 1)%nat.
Proof. intros H. now apply run_late. Qed.

Lemma cancel_within_one_message_witness :
  (sends_after 9 (trace_of (run env_cancel_at_9
                              (mkConfig "/tmp/s" "{counter}" 10 60 5 false) 4)) <= 1)%nat.
Proof.
  apply (cancel_within_one_message env_cancel_at_9
           (mkConfig "/tmp/s" "{counter}" 10 60 5 false) 4 9).
  intros t Ht. simpl. apply Nat.ltb_ge. lia.
Defined.

Example cancel_mid_batch :
  run env_cancel_at_9 (mkConfig "/tmp/s" "{counter}" 10 60 5 false) 4
  = (Exit 0, mkStats 1 12 0 0,
     [EvNow 0; EvSocket 3; EvConnect 3 "/tmp/s" 0; EvBanner "/tmp/s" 10 60 5;
      EvNow 4000; EvRunning true; EvNow 6000;
      EvRunning true; EvFormat 0 "0"; EvSend 3 ("0" ++ nl) 12;
      EvRunning false;
      EvNow 11000; EvSleepUntil 500004000; EvRunning false;
      EvNow 14000; EvStats (snapshot (mkStats 1 12 0 0) 14000 true); EvClose 3]).
Proof. reflexivity. Qed.

(** ** Send failures and the reconnect (C5) *)

(** C5, as stated, fails: a partial write is not reported as an error.
    The payload has 12 bytes, [send] returns 5, and the message is counted
    as sent (with 5 bytes); no error is counted and no reconnect is
    attempted. *)
Lemma partial_write_is_not_an_error :
  sends (trace_of (run env_short_writes
                     (mkConfig "/tmp/s" "{counter}-{missing}" 1 1 1 false) 3))
  = [(3, ("0-{missing}" ++ nl)%string, 5)] /\
  Z.of_nat (String.length ("0-{missing}" ++ nl)%string) = 12 /\
  stats_of (run env_short_writes (mkConfig "/tmp/s" "{counter}-{missing}" 1 1 1 false) 3)
  = mkStats 1 5 0 0 /\
  socket_calls (trace_of (run env_short_writes
                            (mkConfig "/tmp/s" "{counter}-{missing}" 1 1 1 false) 3))
  = [3].
Proof. repeat split. Qed.

Section Recovery.

Variable env : Env.
Variable config : Config.

Hypothesis flag_set : forall t, env_running env t = true.
Hypothesis socket_ok : forall t, 0 <= env_socket env t.
Hypothesis connect_ok : forall t, 0 <= env_connect env t.

(** The outcome of a [send] decides the counters by its sign alone. *)
Lemma send_one_stats (l : Locals) (st : Stats) (t : nat)
      (x : option Z * Locals) (st' : Stats) (es : list Event) :
  send_one env config l st t = (x, st', es) ->
  st' = if env_send env (t + 1) <? 0 then record_error st
        else record_success (env_send env (t + 1)) st.
Proof.
  rewrite send_one_eq. cbn zeta. intros H.
  destruct (env_send env (t + 1) <? 0).
  - destruct (connect_result env _ <? 0); now injection H as _ <- _.
  - now injection H as _ <- _.
Qed.

Lemma connect_result_ok (t : nat) :
  connect_result env t = env_socket env t /\ (connect_result env t <? 0) = false /\
  socket_calls (connect_events env (socket_path config) t) = [env_socket env t] /\
  sends (connect_events env (socket_path config) t) = [].
Proof.
  unfold connect_result, connect_events.
  destruct (Z.ltb_spec (env_socket env t) 0) as [H|H];
    [specialize (socket_ok t); lia|].
  destruct (Z.ltb_spec (env_connect env (t + 1)) 0) as [H'|H'];
    [specialize (connect_ok (t + 1)%nat); lia|].
  repeat split. apply Z.ltb_ge. exact H.
Qed.

(** A batch in which every [send] succeeds. *)
Lemma batch_without_failure (n : nat) (l : Locals) (st : Stats) (t0 : nat) :
  (forall t, (t0 <= t < t0 + 3 * n)%nat -> 0 <= env_send env t) ->
  exists l' st' es,
    send_batch env config n l st t0 = ((None, l'), st', es) /\
    sock l' = sock l /\ errors st' = errors st /\
    socket_calls es = [] /\
    map fd_of (sends es) = repeat (sock l) n.
Proof.
  revert l st t0. induction n as [|n IH]; intros l st t0 Hok.
  - exists l, st, []. repeat split.
  - rewrite send_batch_S, flag_set, send_one_eq. cbn zeta.
    destruct (Z.ltb_spec (env_send env (t0 + 1 + 1)) 0) as [Hneg|_].
    { specialize (Hok (t0 + 1 + 1)%nat ltac:(lia)). lia. }
    cbn [List.length].
    destruct (IH (bump_counter l) (record_success (env_send env (t0 + 1 + 1)) st)
                (t0 + 1 + 2)%nat) as (l' & st' & es & E & Hs & He & Hc & Hf).
    { intros t Ht. apply Hok. lia. }
    rewrite E. exists l', st', (EvRunning true
         :: [EvFormat (counter l)
               (format_message (env_ambient env (t0 + 1)) (message_format config)
                  (counter l));
             EvSend (sock l)
               (format_message (env_ambient env (t0 + 1)) (message_format config)
                  (counter l) ++ nl) (env_send env (t0 + 1 + 1))] ++ es)%list.
    split; [reflexivity|]. cbn in Hs, He. repeat split; auto.
    cbn [List.app sends map repeat]. rewrite Hf. reflexivity.
Qed.

(** A batch of [n] in which exactly the [send] of iteration [j] fails. *)
Lemma batch_with_one_failure (n j : nat) (l : Locals) (st : Stats) (t0 : nat) :
  (j < n)%nat ->
  (forall t, env_send env t < 0 <-> t = (t0 + 3 * j + 2)%nat) ->
  exists l' st' es,
    send_batch env config n l st t0 = ((None, l'), st', es) /\
    errors st' = wrap_u64 (errors st + 1) /\
    socket_calls es = [sock l'] /\
    map fd_of (sends es) = (repeat (sock l) (S j) ++ repeat (sock l') (n - S j))%list.
Proof.
  revert n l st t0. induction j as [|j IH]; intros n l st t0 Hj Hfail.
  - destruct n as [|n]; [lia|].
    rewrite send_batch_S, flag_set, send_one_eq. cbn zeta.
    destruct (Z.ltb_spec (env_send env (t0 + 1 + 1)) 0) as [_|Hpos].
    2:{ assert (env_send env (t0 + 1 + 1) < 0) by (apply Hfail; lia). lia. }
    match goal with
    | |- context [connect_result env ?k] =>
        remember k as tk eqn:Etk;
        destruct (connect_result_ok tk) as (Er & Eb & Ec & Es)
    end.
    rewrite Eb.
    match goal with
    | |- context [send_batch env config n ?l1 ?s1 ?t1] =>
        destruct (batch_without_failure n l1 s1 t1) as (l' & st' & es & E & Hs & He & Hc & Hf)
    end.
    { intros t Ht. destruct (Z_lt_le_dec (env_send env t) 0) as [Hn|]; [|assumption].
      apply Hfail in Hn. subst t. revert Ht. rewrite !List.length_app.
      destruct (verbose config); cbn [List.length]; lia. }
    rewrite E. do 3 eexists. split; [reflexivity|].
    cbn [sock with_sock bump_counter] in Hs. cbn [errors record_error] in He.
    rewrite Hs, He. split; [reflexivity|].
    replace (S n - 1)%nat with n by lia.
    destruct (verbose config); cbn [List.app socket_calls sends];
      rewrite socket_calls_app, sends_app, Ec, Es, Hc; cbn [List.app map];
      rewrite Hf, Er; split; reflexivity.
  - destruct n as [|n]; [lia|].
    rewrite send_batch_S, flag_set, send_one_eq. cbn zeta.
    destruct (Z.ltb_spec (env_send env (t0 + 1 + 1)) 0) as [Hneg|_].
    { apply Hfail in Hneg. lia. }
    cbn [List.length].
    destruct (IH n (bump_counter l) (record_success (env_send env (t0 + 1 + 1)) st)
                (t0 + 1 + 2)%nat) as (l' & st' & es & E & He & Hc & Hf).
    { lia. }
    { intros t. rewrite Hfail. lia. }
    rewrite E. do 3 eexists. split; [reflexivity|].
    cbn [errors record_success] in He. split; [exact He|].
    cbn [socket_calls sends List.app]. split; [exact Hc|].
    cbn [map]. rewrite Hf. reflexivity.
Qed.

End Recovery.

(** C5, amended: a [send] is counted as an error exactly when it returns
    a negative value; any other return value, a short count included, is
    counted as a message sent.  And when, in a batch of [n] with the flag
    set throughout, exactly the [send] of iteration [j] fails and
    connecting succeeds, the batch runs to its end: the error counter
    goes up by exactly one, exactly one connection attempt is made, the
    first [j+1] sends use the old descriptor and the remaining [n-j-1]
    messages are sent on the new one. *)
Theorem one_failure_one_reconnect (env : Env) (config : Config) :
  (forall l st t x st' es,
      send_one env config l st t = (x, st', es) ->
      st' = if env_send env (t + 1) <? 0 then record_error st
            else record_success (env_send env (t + 1)) st) /\
  (forall n j l st t0,
      (forall t, env_running env t = true) ->
      (forall t, 0 <= env_socket env t) ->
      (forall t, 0 <= env_connect env t) ->
      (j < n)%nat ->
      (forall t, env_send env t < 0 <-> t = (t0 + 3 * j + 2)%nat) ->
      0 <= errors st < 2 ^ 64 - 1 ->
      exists l' st' es,
        send_batch env config n l st t0 = ((None, l'), st', es) /\
        errors st' = errors st + 1 /\
        socket_calls es = [sock l'] /\
        map fd_of (sends es) = (repeat (sock l) (S j) ++ repeat (sock l') (n - S j))%list).
Proof.
  split.
  - intros l st t x st' es. apply send_one_stats.
  - intros n j l st t0 Hrun Hsock Hconn Hj Hfail Herr.
    destruct (batch_with_one_failure env config Hrun Hsock Hconn n j l st t0 Hj Hfail)
      as (l' & st' & es & E & He & Hc & Hf).
    exists l', st', es. repeat split; auto.
    rewrite He. unfold wrap_u64. apply Z.mod_small. lia.
Qed.

Lemma one_failure_one_reconnect_witness :
  exists l' st' es,
    send_batch env_one_failure (mkConfig "/tmp/s" "{counter}" 10 60 3 false) 3
               (mkLocals 3 0 0 0) (mkStats 0 0 0 0) 0%nat
    = ((None, l'), st', es) /\
    errors st' = 0 + 1 /\
    socket_calls es = [sock l'] /\
    map fd_of (sends es) = (repeat 3 2 ++ repeat (sock l') (3 - 2))%list.
Proof.
  apply (proj2 (one_failure_one_reconnect env_one_failure
                  (mkConfig "/tmp/s" "{counter}" 10 60 3 false))
               3%nat 1%nat (mkLocals 3 0 0 0) (mkStats 0 0 0 0) 0%nat).
  - reflexivity.
  - intros t. simpl. lia.
  - intros t. simpl. lia.
  - lia.
  - intros t. simpl. destruct (Nat.eqb_spec t 5); lia.
  - simpl. lia.
Defined.

Example one_failure_trace :
  send_batch env_one_failure (mkConfig "/tmp/s" "{counter}" 10 60 3 false) 3
             (mkLocals 3 0 0 0) (mkStats 0 0 0 0) 0%nat
  = ((None, mkLocals 4 3 0 0), mkStats 2 24 1 0,
     [EvRunning true; EvFormat 0 "0"; EvSend 3 ("0" ++ nl) 12;
      EvRunning true; EvFormat 1 "1"; EvSend 3 ("1" ++ nl) (-1);
      EvClose 3; EvSleepFor 100; EvSocket 4; EvConnect 4 "/tmp/s" 0;
      EvRunning true; EvFormat 2 "2"; EvSend 4 ("2" ++ nl) 12]).
Proof. reflexivity. Qed.

(** ** Every failed reconnect ends the run the same way *)

Section Fatal.

Variable env : Env.
Variable config : Config.

Lemma connect_events_no_failure (path : string) (t : nat) :
  ~ reconnect_failed (connect_events env path t).
Proof.
  unfold reconnect_failed, connect_events.
  destruct (env_socket env t <? 0); [cbn; intuition discriminate|].
  destruct (env_connect env (t + 1) <? 0); cbn; intuition discriminate.
Qed.

Lemma send_one_fatal (l : Locals) (st : Stats) (t : nat)
      (x : option Z * Locals) (st' : Stats) (es : list Event) :
  send_one env config l st t = (x, st', es) ->
  reconnect_failed es -> fst x = Some 1.
Proof.
  rewrite send_one_eq. cbn zeta. intros H F.
  pose proof (connect_events_no_failure (socket_path config)) as Q.
  destruct (env_send env (t + 1) <? 0).
  - destruct (connect_result env _ <? 0); injection H as <- <- <-; [reflexivity|].
    exfalso. unfold reconnect_failed in *.
    cbn [In] in F. rewrite ?in_app_iff in F.
    destruct (verbose config); cbn [In] in F;
      intuition (try discriminate); eapply Q; eassumption.
  - injection H as <- <- <-. cbn in F. intuition discriminate.
Qed.

Lemma send_batch_fatal (n : nat) (l : Locals) (st : Stats) (t : nat)
      (x : option Z * Locals) (st' : Stats) (es : list Event) :
  send_batch env config n l st t = (x, st', es) ->
  snapshots es = [] /\ (reconnect_failed es -> fst x = Some 1).
Proof.
  revert l st t x st' es. induction n as [|n IH]; intros l st t x st' es H.
  - injection H as <- <- <-. split; [reflexivity|]. intros [].
  - rewrite send_batch_S in H. destruct (env_running env t).
    + destruct (send_one env config l st _) as [[[o l1] s1] es1] eqn:E1.
      pose proof (send_one_fatal _ _ _ _ _ _ E1) as F1.
      apply send_one_shape in E1. cbn zeta in E1.
      destruct E1 as (tail & Ees & _ & _ & _ & P & _).
      assert (P1 : snapshots es1 = []) by (rewrite Ees; exact P).
      destruct o as [code|].
      * injection H as <- <- <-. split; [exact P1|].
        intros [F|F]; [discriminate|]. now apply F1.
      * destruct (send_batch env config n l1 s1 _) as [[y s2] es2] eqn:E2.
        apply IH in E2. destruct E2 as (P2 & F2). injection H as <- <- <-.
        split.
        -- cbn [snapshots]. now rewrite snapshots_app, P1, P2.
        -- intros [F|F]; [discriminate|].
           apply in_app_iff in F. destruct F as [F|F]; [|now apply F2].
           apply F1 in F. discriminate.
    + injection H as <- <- <-. split; [reflexivity|].
      intros [F|[]]. discriminate.
Qed.

Lemma tick_body_fatal (iv ts : Z) (l : Locals) (st : Stats) (t : nat)
      (x : Flow) (st' : Stats) (es : list Event) :
  tick_body env config iv ts l st t = (x, st', es) ->
  no_final_snapshot es /\ (reconnect_failed es -> x = Return 1).
Proof.
  rewrite tick_body_eq. cbn zeta. intros H.
  destruct (_ >=? duration config).
  - injection H as <- <- <-. split; [constructor|].
    intros [F|[]]. discriminate.
  - destruct (send_batch env config _ l st _) as [[[o l1] s1] es1] eqn:E1.
    apply send_batch_fatal in E1. destruct E1 as (P1 & F1). cbn [fst] in F1.
    unfold no_final_snapshot.
    destruct o as [code|]; injection H as <- <- <-.
    + cbn [snapshots]. rewrite P1. split; [constructor|].
      intros [F|F]; [discriminate|]. apply F1 in F. congruence.
    + cbn [snapshots]. rewrite snapshots_app, P1. split.
      * destruct (_ >=? 1); cbn; repeat constructor.
      * intros [F|F]; [discriminate|].
        apply in_app_iff in F. destruct F as [F|F]; [apply F1 in F; discriminate|].
        exfalso. destruct (_ >=? 1); cbn in F; intuition discriminate.
Qed.

Lemma main_loop_fatal (iv ts : Z) (fuel : nat) (l : Locals) (st : Stats) (t : nat)
      (x : LoopExit) (st' : Stats) (es : list Event) :
  main_loop env config iv ts fuel l st t = (x, st', es) ->
  no_final_snapshot es /\ (reconnect_failed es -> x = Returned 1).
Proof.
  revert l st t x st' es. induction fuel as [|fuel IH]; intros l st t x st' es H.
  - injection H as <- <- <-. split; [constructor|]. intros [].
  - rewrite main_loop_S in H. destruct (env_running env t).
    + destruct (tick_body env config iv ts l st _) as [[f s1] es1] eqn:E1.
      apply tick_body_fatal in E1. destruct E1 as (P1 & F1).
      unfold no_final_snapshot in *.
      destruct f as [l1|l1|code].
      * destruct (main_loop env config iv ts fuel l1 s1 _) as [[y s2] es2] eqn:E2.
        apply IH in E2. destruct E2 as (P2 & F2). injection H as <- <- <-.
        split.
        -- cbn [snapshots]. rewrite snapshots_app. apply Forall_app. now split.
        -- intros [F|F]; [discriminate|].
           apply in_app_iff in F. destruct F as [F|F]; [|now apply F2].
           apply F1 in F. discriminate.
      * injection H as <- <- <-. split; [exact P1|].
        intros [F|F]; [discriminate|]. apply F1 in F. discriminate.
      * injection H as <- <- <-. split; [exact P1|].
        intros [F|F]; [discriminate|]. apply F1 in F. congruence.
    + injection H as <- <- <-. split; [constructor|].
      intros [F|[]]. discriminate.
Qed.

(** Whenever the message of line 223 is in the trace, the run has ended
    with exit code 1 (so it did not run out of iterations), and no final
    snapshot was printed. *)
Lemma reconnect_failure_is_fatal (fuel : nat) :
  reconnect_failed (trace_of (run env config fuel)) ->
  outcome_of (run env config fuel) = Exit 1 /\
  no_final_snapshot (trace_of (run env config fuel)).
Proof.
  rewrite run_eq. cbn zeta.
  pose proof (connect_events_no_failure (socket_path config) 1) as Q.
  destruct (preamble_quiet env config) as (_ & _ & _ & PP).
  assert (QP : ~ reconnect_failed (preamble env config)).
  { unfold preamble, reconnect_failed. cbn [In]. rewrite in_app_iff. cbn [In].
    intuition discriminate. }
  destruct (connect_result env 1 <? 0).
  { cbn [trace_of outcome_of fst snd]. intros [F|F]; [discriminate|]. now apply Q in F. }
  destruct (batch_interval_us config) as [iv|].
  2:{ cbn [trace_of outcome_of fst snd]. intros F. now apply QP in F. }
  destruct (main_loop env config iv _ fuel _ _ _) as [[x s1] es] eqn:E.
  apply main_loop_fatal in E. destruct E as (P & F1).
  unfold no_final_snapshot in *.
  destruct x as [l1|code|]; cbn [trace_of outcome_of fst snd]; intros F;
    apply in_app_iff in F; destruct F as [F|F]; try (now apply QP in F);
    destruct F as [F|F]; try discriminate.
  - apply in_app_iff in F. destruct F as [F|F]; [apply F1 in F; discriminate|].
    cbn in F. intuition discriminate.
  - apply F1 in F. injection F as ->. split; [reflexivity|].
    rewrite snapshots_app, PP. exact P.
  - apply F1 in F. discriminate.
Qed.

End Fatal.

(** * Further properties of the code *)

(** ** Trimming a key or a value (lines 68-72) *)

Section Trim.

Lemma str_all_app (p : ascii -> bool) (a b : string) :
  str_all p (a ++ b) = (str_all p a && str_all p b)%bool.
Proof. induction a as [|c a IH]; simpl; [reflexivity|]. now rewrite IH, andb_assoc. Qed.

Lemma append_nil_r (s : string) : (s ++ "")%string = s.
Proof. induction s; simpl; congruence. Qed.

Lemma ends_blank_app (p core : string) :
  core <> "" -> ends_blank (p ++ core) = ends_blank core.
Proof.
  intros H. induction p as [|c p IH]; [reflexivity|].
  simpl. destruct (p ++ core)%string eqn:E; [|exact IH].
  destruct p; simpl in E; [contradiction|discriminate].
Qed.

Lemma first_not_blank_all (s : string) :
  str_all Str.is_blank s = true -> Str.find_first_not_of_blank s = None.
Proof.
  induction s as [|c s IH]; simpl; [reflexivity|].
  intros H. apply andb_prop in H. destruct H as [Hc Hs]. now rewrite Hc, IH.
Qed.

Lemma first_not_blank_pad (p : string) (c : ascii) (rest : string) :
  str_all Str.is_blank p = true -> Str.is_blank c = false ->
  Str.find_first_not_of_blank (p ++ String c rest) = Some (String.length p).
Proof.
  intros Hp Hc. induction p as [|d p IH]; simpl.
  - now rewrite Hc.
  - simpl in Hp. apply andb_prop in Hp. destruct Hp as [Hd Hp].
    now rewrite Hd, IH.
Qed.

Lemma last_not_blank_all (s : string) :
  str_all Str.is_blank s = true -> Str.find_last_not_of_blank s = None.
Proof.
  induction s as [|c s IH]; simpl; [reflexivity|].
  intros H. apply andb_prop in H. destruct H as [Hc Hs]. now rewrite IH, Hc.
Qed.

Lemma last_not_blank_pad (core p : string) :
  core <> "" -> ends_blank core = false -> str_all Str.is_blank p = true ->
  Str.find_last_not_of_blank (core ++ p) = Some (pred (String.length core)).
Proof.
  intros Hne He Hp. induction core as [|c core IH]; [contradiction|].
  destruct core as [|c' core].
  - simpl in *. now rewrite last_not_blank_all, He.
  - change ((String c (String c' core) ++ p)%string)
      with (String c (String c' core ++ p)).
    cbn [Str.find_last_not_of_blank]. rewrite IH; [reflexivity|discriminate|exact He].
Qed.

(** Blank padding around a text that neither starts nor ends with a blank
    is exactly what the two [erase] calls remove. *)
Lemma trim_pad (p1 core p2 : string) :
  str_all Str.is_blank p1 = true -> str_all Str.is_blank p2 = true ->
  starts_blank core = false -> ends_blank core = false ->
  trim (p1 ++ core ++ p2) = core.
Proof.
  intros H1 H2 Hs He. unfold trim.
  destruct core as [|c core].
  - simpl. rewrite first_not_blank_all; [reflexivity|].
    now rewrite str_all_app, H1, H2.
  - simpl in Hs.
    change ((String c core ++ p2)%string) with (String c (core ++ p2)).
    rewrite first_not_blank_pad by assumption.
    rewrite RenderFacts.drop_app.
    change (String c (core ++ p2)) with ((String c core ++ p2)%string).
    rewrite last_not_blank_pad by (assumption || discriminate).
    cbn [String.length pred].
    change (S (String.length core)) with (String.length (String c core)).
    apply RenderFacts.take_app.
Qed.

(** Every string is blank padding around such a text. *)
Lemma blank_padding (s : string) :
  exists p1 core p2,
    s = (p1 ++ core ++ p2)%string /\
    str_all Str.is_blank p1 = true /\ str_all Str.is_blank p2 = true /\
    starts_blank core = false /\ ends_blank core = false.
Proof.
  induction s as [|c s (p1 & core & p2 & E & H1 & H2 & Hs & He)].
  - exists "", "", "". repeat split.
  - destruct (Str.is_blank c) eqn:Hc.
    + exists (String c p1), core, p2. subst s. simpl. rewrite Hc, H1. repeat split; auto.
    + destruct core as [|d core].
      * exists "", (String c ""), (p1 ++ p2)%string. subst s. simpl.
        rewrite Hc, str_all_app, H1, H2. repeat split.
      * exists "", (String c (p1 ++ String d core)), p2. subst s.
        repeat split; auto.
        -- simpl. now rewrite RenderFacts.app_assoc.
        -- change (ends_blank (String c (p1 ++ String d core)))
             with (match (p1 ++ String d core)%string with
                   | EmptyString => Str.is_blank c
                   | String _ _ => ends_blank (p1 ++ String d core)
                   end).
           destruct (p1 ++ String d core)%string eqn:E.
           ++ destruct p1; discriminate.
           ++ rewrite <- E. rewrite ends_blank_app by discriminate. exact He.
Qed.

End Trim.

(** X1: [trim] removes exactly the blanks (spaces and tabs) at the two ends:
    the string is blank padding around the result, and the result neither
    starts nor ends with a blank. *)
Theorem trim_removes_surrounding_blanks (s : string) :
  starts_blank (trim s) = false /\ ends_blank (trim s) = false /\
  exists p1 p2,
    s = (p1 ++ trim s ++ p2)%string /\
    str_all Str.is_blank p1 = true /\ str_all Str.is_blank p2 = true.
Proof.
  destruct (blank_padding s) as (p1 & core & p2 & E & H1 & H2 & Hs & He).
  assert (T : trim s = core) by (rewrite E; now apply trim_pad).
  rewrite T. repeat split; auto. now exists p1, p2.
Qed.

(** X2: trimming twice is trimming once. *)
Theorem trim_idempotent (s : string) : trim (trim s) = trim s.
Proof.
  destruct (blank_padding s) as (p1 & core & p2 & E & H1 & H2 & Hs & He).
  assert (T : trim s = core) by (rewrite E; now apply trim_pad).
  rewrite T.
  rewrite <- (append_nil_r core) at 1.
  change ((core ++ "")%string) with (("" ++ core ++ "")%string).
  now apply trim_pad.
Qed.

(** ** std::stoi and std::to_string (lines 76-78, 91, 119) *)

Section Decimal.

Import Decimal.

(** The value [Stoi.digits] accumulates over the digits of [d]. *)
Lemma digits_string_of_uint (d : uint) (acc : Z) (seen : bool) (l : uint) :
  acc = Z.of_N (DecimalPos.Unsigned.of_lu l) ->
  Stoi.digits (NilEmpty.string_of_uint d) acc seen
  = (Z.of_N (DecimalPos.Unsigned.of_lu (revapp d l)),
     match d with Nil => seen | _ => true end).
Proof.
  revert acc seen l.
  induction d; intros acc seen l ->; cbn [NilEmpty.string_of_uint Stoi.digits revapp];
    try reflexivity;
    match goal with
    | |- context [Stoi.digit_val ?c] =>
        let v := eval vm_compute in (Stoi.digit_val c) in
        change (Stoi.digit_val c) with v
    end;
    cbv iota;
    (erewrite IHd;
     [ destruct d; reflexivity
     | cbn [DecimalPos.Unsigned.of_lu]; lia ]).
Qed.

Lemma digits_to_uint (p : positive) :
  Stoi.digits (NilEmpty.string_of_uint (Pos.to_uint p)) 0 false = (Z.pos p, true).
Proof.
  rewrite (digits_string_of_uint _ 0 false Nil) by reflexivity.
  change (revapp (Pos.to_uint p) Nil) with (rev (Pos.to_uint p)).
  rewrite <- DecimalPos.Unsigned.of_uint_alt, DecimalPos.Unsigned.of_to.
  pose proof (DecimalPos.Unsigned.to_uint_nonnil p) as H.
  destruct (Pos.to_uint p); [contradiction|..]; reflexivity.
Qed.

Lemma string_of_uint_digits (d : uint) :
  str_all is_digit (NilEmpty.string_of_uint d) = true.
Proof. induction d; cbn; auto. Qed.

Lemma to_string_pos (p : positive) :
  Str.to_string (Z.pos p) = NilEmpty.string_of_uint (Pos.to_uint p).
Proof.
  unfold Str.to_string. cbn [Z.to_int NilZero.string_of_int NilZero.string_of_uint].
  pose proof (DecimalPos.Unsigned.to_uint_nonnil p) as H.
  destruct (Pos.to_uint p); [contradiction|..]; reflexivity.
Qed.

Lemma to_string_neg (p : positive) :
  Str.to_string (Z.neg p)
  = String "-"%char (NilEmpty.string_of_uint (Pos.to_uint p)).
Proof.
  unfold Str.to_string. cbn [Z.to_int NilZero.string_of_int NilZero.string_of_uint].
  pose proof (DecimalPos.Unsigned.to_uint_nonnil p) as H.
  destruct (Pos.to_uint p); [contradiction|..]; reflexivity.
Qed.

(** On a text that starts with a digit [stoi] skips nothing and reads no
    sign. *)
Lemma stoi_unsigned (p : positive) :
  Stoi.stoi (NilEmpty.string_of_uint (Pos.to_uint p))
  = if in_int (Z.pos p) then inl (Z.pos p) else inr Stoi.out_of_range.
Proof.
  pose proof (digits_to_uint p) as D.
  pose proof (DecimalPos.Unsigned.to_uint_nonnil p) as H.
  unfold Stoi.stoi.
  destruct (Pos.to_uint p); [contradiction|..];
    cbn [NilEmpty.string_of_uint Stoi.skip_space] in *;
    (change (Stoi.is_space _) with false); cbv iota;
    rewrite D; reflexivity.
Qed.

Lemma stoi_negative (p : positive) :
  Stoi.stoi (String "-"%char (NilEmpty.string_of_uint (Pos.to_uint p)))
  = if in_int (Z.neg p) then inl (Z.neg p) else inr Stoi.out_of_range.
Proof.
  pose proof (digits_to_uint p) as D.
  unfold Stoi.stoi. cbn [Stoi.skip_space].
  change (Stoi.is_space "-"%char) with false. cbv iota.
  rewrite D. reflexivity.
Qed.

Lemma stoi_to_string (n : Z) :
  in_int n = true -> Stoi.stoi (Str.to_string n) = inl n.
Proof.
  intros H. destruct n as [|p|p].
  - reflexivity.
  - now rewrite to_string_pos, stoi_unsigned, H.
  - now rewrite to_string_neg, stoi_negative, H.
Qed.

(** On the decimal text of any integer, [stoi] returns the integer when
    it is an [int] and throws [out_of_range] otherwise. *)
Lemma stoi_to_string_range (n : Z) :
  Stoi.stoi (Str.to_string n) = if in_int n then inl n else inr Stoi.out_of_range.
Proof.
  destruct n as [|p|p].
  - reflexivity.
  - now rewrite to_string_pos, stoi_unsigned.
  - now rewrite to_string_neg, stoi_negative.
Qed.

Lemma to_string_chars (n : Z) : str_all digit_or_minus (Str.to_string n) = true.
Proof.
  assert (G : forall d, str_all digit_or_minus (NilEmpty.string_of_uint d) = true).
  { induction d; cbn; auto. }
  destruct n as [|p|p].
  - reflexivity.
  - rewrite to_string_pos. apply G.
  - rewrite to_string_neg. cbn. apply G.
Qed.

Lemma to_string_nonneg_digits (n : Z) :
  0 <= n -> str_all is_digit (Str.to_string n) = true.
Proof.
  intros H. destruct n as [|p|p]; [reflexivity| |lia].
  rewrite to_string_pos. apply string_of_uint_digits.
Qed.

End Decimal.

(** X3: [std::stoi] reads back what [std::to_string] writes: for every
    [int] value [n], [stoi (to_string n) = n]. *)
Theorem stoi_reads_to_string (n : Z) :
  in_int n = true -> Stoi.stoi (Str.to_string n) = inl n.
Proof. apply stoi_to_string. Qed.

Lemma stoi_reads_to_string_witness :
  Stoi.stoi (Str.to_string (-2147483648)) = inl (-2147483648).
Proof. apply stoi_reads_to_string. reflexivity. Defined.

(** A value returned by [stoi] is an [int]. *)
Lemma stoi_result_in_int (s : string) (z : Z) :
  Stoi.stoi s = inl z -> in_int z = true.
Proof.
  unfold Stoi.stoi.
  destruct (match Stoi.skip_space s with
            | String "-"%char r => (true, r)
            | String "+"%char r => (false, r)
            | _ => (false, Stoi.skip_space s)
            end) as [neg s2].
  destruct (Stoi.digits s2 0 false) as [v seen].
  destruct (negb seen); [discriminate|].
  destruct (in_int (if neg then - v else v)) eqn:E; [|discriminate].
  intros H. injection H as <-. exact E.
Qed.

Example stoi_edge_cases :
  Stoi.stoi "" = inr Stoi.invalid_argument /\
  Stoi.stoi "-" = inr Stoi.invalid_argument /\
  Stoi.stoi "+-5" = inr Stoi.invalid_argument /\
  Stoi.stoi "  +42abc" = inl 42 /\
  Stoi.stoi "2147483647" = inl 2147483647 /\
  Stoi.stoi "2147483648" = inr Stoi.out_of_range /\
  Stoi.stoi "-2147483648" = inl (-2147483648) /\
  Stoi.stoi "-2147483649" = inr Stoi.out_of_range /\
  Stoi.stoi "007" = inl 7.
Proof. repeat split. Qed.

(** ** load_config (lines 40-83) *)

Section LoadConfig.

Lemma is_skipped_cons (c : ascii) (r : string) :
  is_skipped (String c r)
  = (Ascii.eqb c "#"%char || str_all not_equals_sign (String c r))%bool.
Proof.
  destruct c as [[] [] [] [] [] [] [] []]; try reflexivity.
Qed.

Lemma find_char_none (line : string) :
  str_all not_equals_sign line = true -> Str.find_char "="%char line = None.
Proof.
  induction line as [|c line IH]; [reflexivity|].
  simpl. unfold not_equals_sign at 1. intros H. apply andb_prop in H.
  destruct H as [Hc Hl]. apply negb_true_iff in Hc. now rewrite Hc, IH.
Qed.

Lemma find_char_some (line : string) :
  str_all not_equals_sign line = false -> exists pos, Str.find_char "="%char line = Some pos.
Proof.
  induction line as [|c line IH]; [discriminate|].
  simpl. unfold not_equals_sign at 1. destruct (Ascii.eqb c "="%char); [eauto|].
  simpl. intros H. destruct (IH H) as [pos ->]. simpl. eauto.
Qed.

(** One iteration of the loop, by the key and the value of the line. *)
Lemma load_line_assign (config : Config) (line : string) :
  load_line config line
  = match key_of line, value_of line with
    | Some key, Some value => assign_key config key value
    | _, _ => inl config
    end.
Proof.
  unfold key_of, value_of. destruct line as [|c r]; [reflexivity|].
  rewrite is_skipped_cons.
  destruct (Ascii.eqb_spec c "#"%char) as [->|Hc]; [reflexivity|].
  cbn [orb].
  assert (E : load_line config (String c r)
              = match Str.find_char "="%char (String c r) with
                | None => inl config
                | Some pos =>
                    assign_key config (trim (Str.take pos (String c r)))
                      (trim (Str.drop (S pos) (String c r)))
                end).
  { destruct c as [[] [] [] [] [] [] [] []]; try reflexivity. now contradiction Hc. }
  rewrite E.
  destruct (str_all not_equals_sign (String c r)) eqn:A.
  - now rewrite find_char_none.
  - destruct (find_char_some _ A) as [pos ->]. reflexivity.
Qed.

Lemma load_line_skipped (config : Config) (line : string) :
  is_skipped line = true -> load_line config line = inl config.
Proof. intros H. rewrite load_line_assign. unfold key_of. now rewrite H. Qed.

Lemma load_lines_app (config : Config) (a b : list string) :
  load_lines config (a ++ b)
  = match load_lines config a with
    | inl config' => load_lines config' b
    | inr e => inr e
    end.
Proof.
  revert config. induction a as [|l a IH]; intros config; [reflexivity|].
  cbn [List.app load_lines]. destruct (load_line config l); [apply IH | reflexivity].
Qed.

Lemma assign_key_in_int (config config' : Config) (key value : string) :
  assign_key config key value = inl config' ->
  config_in_int config -> config_in_int config'.
Proof.
  unfold assign_key, set_int, config_in_int. intros H (H1 & H2 & H3).
  repeat match type of H with
         | (if ?b then _ else _) = _ => destruct b
         end;
    try (injection H as <-; cbn; auto);
    destruct (Stoi.stoi value) as [z|e] eqn:S; try discriminate;
    apply stoi_result_in_int in S; injection H as <-; cbn; auto.
Qed.

Lemma load_lines_in_int (lines : list string) (config config' : Config) :
  load_lines config lines = inl config' ->
  config_in_int config -> config_in_int config'.
Proof.
  revert config. induction lines as [|l lines IH]; intros config H I.
  - injection H as <-. exact I.
  - cbn [load_lines] in H. destruct (load_line config l) as [c1|e] eqn:L; [|discriminate].
    apply (IH c1 H). rewrite load_line_assign in L.
    destruct (key_of l) as [key|]; [|injection L as <-; exact I].
    destruct (value_of l) as [value|]; [|injection L as <-; exact I].
    eapply assign_key_in_int; eassumption.
Qed.

(** A field changes only through a line that carries its key. *)
Lemma assign_key_other (config config' : Config) (key value : string) :
  assign_key config key value = inl config' ->
  (key <> "socket_path" -> socket_path config' = socket_path config) /\
  (key <> "message_format" -> message_format config' = message_format config) /\
  (key <> "target_rate" -> target_rate config' = target_rate config) /\
  (key <> "duration" -> duration config' = duration config) /\
  (key <> "batch_size" -> batch_size config' = batch_size config) /\
  (key <> "verbose" -> verbose config' = verbose config).
Proof.
  unfold assign_key, set_int. intros H.
  repeat match type of H with
         | (if String.eqb ?a ?b then _ else _) = _ =>
             destruct (String.eqb_spec a b)
         end;
    try (destruct (Stoi.stoi value); [|discriminate]);
    injection H as <-; cbn; repeat split; intros; congruence.
Qed.

End LoadConfig.

(** X5: empty lines, comment lines and lines without an equals sign do not
    matter: leaving them out of the file (or putting them in) does not
    change what [load_config] returns. *)
Theorem load_config_skips_comments (config : Config) (lines : list string) :
  load_lines config (filter (fun l => negb (is_skipped l)) lines)
  = load_lines config lines.
Proof.
  revert config. induction lines as [|l lines IH]; intros config; [reflexivity|].
  cbn [filter]. destruct (is_skipped l) eqn:S; cbn [negb].
  - cbn [load_lines]. rewrite (load_line_skipped _ _ S). apply IH.
  - cbn [load_lines]. destruct (load_line config l); [apply IH | reflexivity].
Qed.

(** X6: a key that no line of the file carries keeps its value: each field
    of the result is the field [load_lines] started from (the default, for
    [load_config]) unless some line has that key. *)
Theorem load_config_missing_key (lines : list string) (config config' : Config) :
  load_lines config lines = inl config' ->
  ((forall l, In l lines -> key_of l <> Some "socket_path") ->
   socket_path config' = socket_path config) /\
  ((forall l, In l lines -> key_of l <> Some "message_format") ->
   message_format config' = message_format config) /\
  ((forall l, In l lines -> key_of l <> Some "target_rate") ->
   target_rate config' = target_rate config) /\
  ((forall l, In l lines -> key_of l <> Some "duration") ->
   duration config' = duration config) /\
  ((forall l, In l lines -> key_of l <> Some "batch_size") ->
   batch_size config' = batch_size config) /\
  ((forall l, In l lines -> key_of l <> Some "verbose") ->
   verbose config' = verbose config).
Proof.
  revert config. induction lines as [|l lines IH]; intros config H.
  - injection H as <-. repeat split; reflexivity.
  - cbn [load_lines] in H. destruct (load_line config l) as [c1|e] eqn:L; [|discriminate].
    specialize (IH c1 H). destruct IH as (I1 & I2 & I3 & I4 & I5 & I6).
    assert (K : forall k, key_of l <> Some k ->
                (k = "socket_path" -> socket_path c1 = socket_path config) /\
                (k = "message_format" -> message_format c1 = message_format config) /\
                (k = "target_rate" -> target_rate c1 = target_rate config) /\
                (k = "duration" -> duration c1 = duration config) /\
                (k = "batch_size" -> batch_size c1 = batch_size config) /\
                (k = "verbose" -> verbose c1 = verbose config)).
    { intros k Hk. rewrite load_line_assign in L.
      destruct (key_of l) as [key|]; [|injection L as <-; repeat split; reflexivity].
      destruct (value_of l) as [value|]; [|injection L as <-; repeat split; reflexivity].
      destruct (assign_key_other _ _ _ _ L) as (A1 & A2 & A3 & A4 & A5 & A6).
      repeat split; intros ->;
        [apply A1|apply A2|apply A3|apply A4|apply A5|apply A6]; congruence. }
    repeat split; intros Hk.
    + rewrite I1 by (intros; apply Hk; now right).
      now apply (K "socket_path"); [apply Hk; left|].
    + rewrite I2 by (intros; apply Hk; now right).
      now apply (K "message_format"); [apply Hk; left|].
    + rewrite I3 by (intros; apply Hk; now right).
      now apply (K "target_rate"); [apply Hk; left|].
    + rewrite I4 by (intros; apply Hk; now right).
      now apply (K "duration"); [apply Hk; left|].
    + rewrite I5 by (intros; apply Hk; now right).
      now apply (K "batch_size"); [apply Hk; left|].
    + rewrite I6 by (intros; apply Hk; now right).
      now apply (K "verbose"); [apply Hk; left|].
Qed.

Lemma load_config_missing_key_witness :
  target_rate (mkConfig "/tmp/fluentbit.sock" (message_format default_config)
                 1000 5 100 true) = target_rate default_config.
Proof.
  apply (load_config_missing_key ["duration=5"; "# target_rate=7"; "verbose = true"]
           default_config).
  - reflexivity.
  - intros l [<-|[<-|[<-|[]]]]; vm_compute; discriminate.
Defined.

(** ** A key = value line, written and read back *)

Section Assignment.

Lemma str_all_impl (p q : ascii -> bool) (s : string) :
  (forall c, p c = true -> q c = true) -> str_all p s = true -> str_all q s = true.
Proof.
  intros H. induction s as [|c s IH]; [reflexivity|].
  simpl. intros A. apply andb_prop in A. destruct A as [Hc Hs].
  now rewrite (H c Hc), IH.
Qed.

Lemma blank_cases (c : ascii) :
  Str.is_blank c = true -> c = " "%char \/ c = "009"%char.
Proof.
  unfold Str.is_blank. intros H. apply orb_prop in H.
  destruct H as [H|H]; apply Ascii.eqb_eq in H; auto.
Qed.

Lemma blank_not_equals_sign (c : ascii) :
  Str.is_blank c = true -> not_equals_sign c = true.
Proof. intros H. destruct (blank_cases c H) as [->| ->]; reflexivity. Qed.

Lemma digit_or_minus_not_blank (c : ascii) :
  digit_or_minus c = true -> Str.is_blank c = false.
Proof.
  intros H. destruct (Str.is_blank c) eqn:B; [|reflexivity].
  destruct (blank_cases c B) as [->| ->]; discriminate.
Qed.

Lemma no_blank_ends (p : ascii -> bool) (s : string) :
  (forall c, p c = true -> Str.is_blank c = false) ->
  str_all p s = true -> starts_blank s = false /\ ends_blank s = false.
Proof.
  intros H A. split.
  - destruct s as [|c s]; [reflexivity|]. simpl in *.
    apply andb_prop in A. now apply H.
  - induction s as [|c s IH]; [reflexivity|].
    simpl in A. apply andb_prop in A. destruct A as [Hc Hs].
    destruct s as [|d s]; [now apply H | now apply IH].
Qed.

Lemma find_char_app (pre rest : string) :
  str_all not_equals_sign pre = true ->
  Str.find_char "="%char (pre ++ String "="%char rest) = Some (String.length pre).
Proof.
  intros H. induction pre as [|c pre IH]; [reflexivity|].
  simpl in *. apply andb_prop in H. destruct H as [Hc Hp].
  unfold not_equals_sign in Hc. apply negb_true_iff in Hc. now rewrite Hc, IH.
Qed.

Lemma str_all_equals_sign (pre rest : string) :
  str_all not_equals_sign (pre ++ String "="%char rest) = false.
Proof. rewrite str_all_app. simpl. apply andb_false_r. Qed.

(** The key and the value of a padded assignment. *)
Lemma padded_assignment (p1 p2 p3 p4 krest value : string) (k0 : ascii) :
  str_all Str.is_blank p1 = true -> str_all Str.is_blank p2 = true ->
  str_all Str.is_blank p3 = true -> str_all Str.is_blank p4 = true ->
  Ascii.eqb k0 "#"%char = false -> Str.is_blank k0 = false ->
  str_all not_equals_sign (String k0 krest) = true ->
  ends_blank (String k0 krest) = false ->
  starts_blank value = false -> ends_blank value = false ->
  let line := (p1 ++ String k0 krest ++ p2 ++ String "="%char (p3 ++ value ++ p4))%string in
  key_of line = Some (String k0 krest) /\ value_of line = Some value.
Proof.
  intros H1 H2 H3 H4 Hhash Hk0 Hkey Hkend Hvs Hve line.
  set (pre := (p1 ++ String k0 krest ++ p2)%string).
  assert (E : line = (pre ++ String "="%char (p3 ++ value ++ p4))%string).
  { unfold line, pre. now rewrite !RenderFacts.app_assoc. }
  assert (Hpre : str_all not_equals_sign pre = true).
  { unfold pre. rewrite !str_all_app, Hkey.
    rewrite (str_all_impl _ _ p1 blank_not_equals_sign H1).
    now rewrite (str_all_impl _ _ p2 blank_not_equals_sign H2). }
  assert (Sk : is_skipped line = false).
  { assert (A : str_all not_equals_sign line = false)
      by (rewrite E; apply str_all_equals_sign).
    destruct line as [|c r] eqn:L; [discriminate A|].
    rewrite is_skipped_cons, A, orb_false_r.
    destruct p1 as [|b p1]; cbn in L; injection L as <- _; [exact Hhash|].
    simpl in H1. apply andb_prop in H1. destruct H1 as [Hb _].
    destruct (blank_cases b Hb) as [->| ->]; reflexivity. }
  unfold key_of, value_of. rewrite Sk, E, find_char_app by assumption.
  rewrite RenderFacts.take_app.
  replace (S (String.length pre)) with (String.length (pre ++ "=")%string)
    by (rewrite RenderFacts.length_app; simpl; lia).
  replace (pre ++ String "="%char (p3 ++ value ++ p4))%string
    with ((pre ++ "=") ++ (p3 ++ value ++ p4))%string
    by (now rewrite RenderFacts.app_assoc).
  rewrite RenderFacts.drop_app.
  unfold pre. split; f_equal; apply trim_pad; assumption.
Qed.

End Assignment.

(** X7: an assignment written with any blank padding around the key and
    around the value is read back exactly: a numeric key gets the [int]
    whose [to_string] was written, and [socket_path] and [message_format]
    get the text written (which may contain blanks and equals signs
    inside, but does not start or end with a blank). *)
Theorem assignment_round_trip (config : Config) (n : Z) (v p1 p2 p3 p4 : string) :
  in_int n = true ->
  starts_blank v = false -> ends_blank v = false ->
  str_all Str.is_blank p1 = true -> str_all Str.is_blank p2 = true ->
  str_all Str.is_blank p3 = true -> str_all Str.is_blank p4 = true ->
  load_line config (p1 ++ "target_rate" ++ p2 ++ "=" ++ p3 ++ Str.to_string n ++ p4)
  = inl (mkConfig (socket_path config) (message_format config) n
           (duration config) (batch_size config) (verbose config)) /\
  load_line config (p1 ++ "duration" ++ p2 ++ "=" ++ p3 ++ Str.to_string n ++ p4)
  = inl (mkConfig (socket_path config) (message_format config) (target_rate config)
           n (batch_size config) (verbose config)) /\
  load_line config (p1 ++ "batch_size" ++ p2 ++ "=" ++ p3 ++ Str.to_string n ++ p4)
  = inl (mkConfig (socket_path config) (message_format config) (target_rate config)
           (duration config) n (verbose config)) /\
  load_line config (p1 ++ "socket_path" ++ p2 ++ "=" ++ p3 ++ v ++ p4)
  = inl (mkConfig v (message_format config) (target_rate config)
           (duration config) (batch_size config) (verbose config)) /\
  load_line config (p1 ++ "message_format" ++ p2 ++ "=" ++ p3 ++ v ++ p4)
  = inl (mkConfig (socket_path config) v (target_rate config)
           (duration config) (batch_size config) (verbose config)).
Proof.
  intros Hn Hvs Hve H1 H2 H3 H4.
  destruct (no_blank_ends digit_or_minus (Str.to_string n) digit_or_minus_not_blank
              (to_string_chars n)) as [Ns Ne].
  assert (G : forall k0 krest value,
             Ascii.eqb k0 "#"%char = false -> Str.is_blank k0 = false ->
             str_all not_equals_sign (String k0 krest) = true ->
             ends_blank (String k0 krest) = false ->
             starts_blank value = false -> ends_blank value = false ->
             load_line config (p1 ++ String k0 krest ++ p2 ++ "=" ++ p3 ++ value ++ p4)
             = assign_key config (String k0 krest) value).
  { intros k0 krest value A1 A2 A3 A4 A5 A6. rewrite load_line_assign.
    destruct (padded_assignment p1 p2 p3 p4 krest value k0 H1 H2 H3 H4 A1 A2 A3 A4 A5 A6)
      as [K V].
    change ("=" ++ p3 ++ value ++ p4)%string with (String "="%char (p3 ++ value ++ p4)).
    now rewrite K, V. }
  repeat split; rewrite G by (reflexivity || assumption);
    unfold assign_key, set_int; cbn [String.eqb Ascii.eqb Bool.eqb];
    rewrite ?stoi_to_string by assumption; reflexivity.
Qed.

Lemma assignment_round_trip_witness :
  load_line default_config ("  target_rate" ++ " " ++ "=" ++ "  " ++ Str.to_string 2500 ++ " ")
  = inl (mkConfig (socket_path default_config) (message_format default_config) 2500
           (duration default_config) (batch_size default_config)
           (verbose default_config)).
Proof.
  apply (assignment_round_trip default_config 2500 "/run/x y.sock" "  " " " "  " " ");
    reflexivity.
Defined.

(** ** Numbers in the file *)

Section Numbers.

(** A line [key=number] without padding, for a key that is not a comment
    and has no blank at its ends. *)
Lemma load_line_number (config : Config) (k0 : ascii) (krest : string) (n : Z) :
  Ascii.eqb k0 "#"%char = false -> Str.is_blank k0 = false ->
  str_all not_equals_sign (String k0 krest) = true ->
  ends_blank (String k0 krest) = false ->
  load_line config (String k0 krest ++ "=" ++ Str.to_string n)
  = assign_key config (String k0 krest) (Str.to_string n).
Proof.
  intros A1 A2 A3 A4.
  destruct (no_blank_ends digit_or_minus (Str.to_string n) digit_or_minus_not_blank
              (to_string_chars n)) as [Ns Ne].
  destruct (padded_assignment "" "" "" "" krest (Str.to_string n) k0
              eq_refl eq_refl eq_refl eq_refl A1 A2 A3 A4 Ns Ne) as [K V].
  rewrite load_line_assign.
  cbn [append] in K, V. rewrite append_nil_r in K, V.
  cbn [append]. now rewrite K, V.
Qed.

Lemma assign_target_rate (config : Config) (n : Z) :
  assign_key config "target_rate" (Str.to_string n)
  = if in_int n
    then inl (mkConfig (socket_path config) (message_format config) n
                (duration config) (batch_size config) (verbose config))
    else inr Stoi.out_of_range.
Proof.
  unfold assign_key, set_int. cbn [String.eqb Ascii.eqb Bool.eqb].
  rewrite stoi_to_string_range. now destruct (in_int n).
Qed.

Lemma assign_duration (config : Config) (n : Z) :
  assign_key config "duration" (Str.to_string n)
  = if in_int n
    then inl (mkConfig (socket_path config) (message_format config)
                (target_rate config) n (batch_size config) (verbose config))
    else inr Stoi.out_of_range.
Proof.
  unfold assign_key, set_int. cbn [String.eqb Ascii.eqb Bool.eqb].
  rewrite stoi_to_string_range. now destruct (in_int n).
Qed.

Lemma assign_batch_size (config : Config) (n : Z) :
  assign_key config "batch_size" (Str.to_string n)
  = if in_int n
    then inl (mkConfig (socket_path config) (message_format config)
                (target_rate config) (duration config) n (verbose config))
    else inr Stoi.out_of_range.
Proof.
  unfold assign_key, set_int. cbn [String.eqb Ascii.eqb Bool.eqb].
  rewrite stoi_to_string_range. now destruct (in_int n).
Qed.

(** A file that goes on with one more line. *)
Lemma load_config_next_line (lines after : list string) (config : Config) (line : string) :
  load_config (Some lines) = inl config ->
  load_config (Some (lines ++ line :: after)%list)
  = match load_line config line with
    | inl config' => load_lines config' after
    | inr e => inr e
    end.
Proof. cbn [load_config]. intros H. now rewrite load_lines_app, H. Qed.

End Numbers.

Ltac split_key :=
  match goal with
  | |- context [load_line ?c (?k ++ Str.to_string ?n)%string] =>
      first
        [ change (k ++ Str.to_string n)%string
            with ("target_rate" ++ "=" ++ Str.to_string n)%string
        | change (k ++ Str.to_string n)%string
            with ("duration" ++ "=" ++ Str.to_string n)%string
        | change (k ++ Str.to_string n)%string
            with ("batch_size" ++ "=" ++ Str.to_string n)%string ]
  end.

(** X4: a number written in the file for [target_rate], [duration] or
    [batch_size] is stored as it is when it is an [int] -- zero and
    negative numbers included -- and the load goes on with the next line;
    a number that is not an [int] is never stored, reduced or clamped: the
    load ends there with [out_of_range], whatever follows.  So the numeric
    fields of every configuration that [load_config] returns are [int]
    values. *)
Theorem load_config_number_range (lines after : list string) (config : Config) (n : Z) :
  load_config (Some lines) = inl config ->
  (in_int (target_rate config) = true /\ in_int (duration config) = true /\
   in_int (batch_size config) = true) /\
  (in_int n = true ->
   load_config (Some (lines ++ ("target_rate=" ++ Str.to_string n)%string :: after)%list)
   = load_lines (mkConfig (socket_path config) (message_format config) n
                   (duration config) (batch_size config) (verbose config)) after /\
   load_config (Some (lines ++ ("duration=" ++ Str.to_string n)%string :: after)%list)
   = load_lines (mkConfig (socket_path config) (message_format config)
                   (target_rate config) n (batch_size config) (verbose config)) after /\
   load_config (Some (lines ++ ("batch_size=" ++ Str.to_string n)%string :: after)%list)
   = load_lines (mkConfig (socket_path config) (message_format config)
                   (target_rate config) (duration config) n (verbose config)) after) /\
  (in_int n = false ->
   load_config (Some (lines ++ ("target_rate=" ++ Str.to_string n)%string :: after)%list)
   = inr Stoi.out_of_range /\
   load_config (Some (lines ++ ("duration=" ++ Str.to_string n)%string :: after)%list)
   = inr Stoi.out_of_range /\
   load_config (Some (lines ++ ("batch_size=" ++ Str.to_string n)%string :: after)%list)
   = inr Stoi.out_of_range).
Proof.
  intros H. split; [|split].
  - exact (load_lines_in_int lines default_config config H
             (conj eq_refl (conj eq_refl eq_refl))).
  - intros I. repeat split;
      rewrite (load_config_next_line lines after config _ H);
      split_key;
      (rewrite (load_line_number config) by reflexivity);
      rewrite ?assign_target_rate, ?assign_duration, ?assign_batch_size, I;
      reflexivity.
  - intros I. repeat split;
      rewrite (load_config_next_line lines after config _ H);
      split_key;
      (rewrite (load_line_number config) by reflexivity);
      rewrite ?assign_target_rate, ?assign_duration, ?assign_batch_size, I;
      reflexivity.
Qed.

Lemma load_config_number_range_witness :
  load_config (Some (["duration = -5"; "verbose=1"]
                       ++ ("batch_size=" ++ Str.to_string 2147483648)%string
                       :: ["batch_size=7"; "duration=abc"])%list)
  = inr Stoi.out_of_range /\
  load_config (Some (["duration = -5"; "verbose=1"]
                       ++ ("target_rate=" ++ Str.to_string 0)%string
                       :: ["batch_size=7"; "duration=abc"])%list)
  = load_lines (mkConfig "/tmp/fluentbit.sock" (message_format default_config) 0 (-5) 100 true)
      ["batch_size=7"; "duration=abc"].
Proof.
  destruct (load_config_number_range ["duration = -5"; "verbose=1"]
              ["batch_size=7"; "duration=abc"]
              (mkConfig "/tmp/fluentbit.sock" (message_format default_config)
                 1000 (-5) 100 true) 2147483648 eq_refl) as (_ & _ & Out).
  destruct (load_config_number_range ["duration = -5"; "verbose=1"]
              ["batch_size=7"; "duration=abc"]
              (mkConfig "/tmp/fluentbit.sock" (message_format default_config)
                 1000 (-5) 100 true) 0 eq_refl) as (_ & In0 & _).
  split.
  - exact (proj2 (proj2 (Out eq_refl))).
  - exact (proj1 (In0 eq_refl)).
Defined.

(** ** Templates whose only placeholder is one {counter} *)

Section CounterTemplate.

Lemma find_no_brace (pat s : string) :
  str_all not_brace s = true -> Str.find (String "{"%char pat) s = None.
Proof.
  induction s as [|c s IH]; [reflexivity|].
  simpl str_all. intros H. apply andb_prop in H. destruct H as [Hc Hs].
  cbn [Str.find String.prefix].
  destruct (ascii_dec "{"%char c) as [<-|_]; [discriminate Hc|].
  now rewrite IH.
Qed.

Lemma replace_first_no_brace (pat v s : string) :
  str_all not_brace s = true -> replace_first (String "{"%char pat) v s = s.
Proof. intros H. unfold replace_first. now rewrite find_no_brace. Qed.

Lemma find_after_no_brace_gen (pat pre rest : string) :
  str_all not_brace pre = true ->
  String.prefix (String "{"%char pat) rest = true ->
  Str.find (String "{"%char pat) (pre ++ rest) = Some (String.length pre).
Proof.
  intros H P. induction pre as [|c pre IH].
  - cbn [String.append String.length]. destruct rest; cbn [Str.find]; now rewrite P.
  - simpl str_all in H. apply andb_prop in H. destruct H as [Hc Hp].
    cbn [String.append Str.find String.prefix String.length].
    destruct (ascii_dec "{"%char c) as [<-|_]; [discriminate Hc|].
    now rewrite IH.
Qed.

Lemma find_after_no_brace (pat pre post : string) :
  str_all not_brace pre = true ->
  Str.find (String "{"%char pat) (pre ++ String "{"%char pat ++ post)
  = Some (String.length pre).
Proof.
  intros H. apply find_after_no_brace_gen; [assumption|].
  apply RenderFacts.prefix_app.
Qed.

Lemma digit_not_brace (c : ascii) : is_digit c = true -> not_brace c = true.
Proof.
  unfold is_digit, not_brace. intros H.
  destruct (Ascii.eqb_spec c "{"%char) as [->|]; [discriminate H | reflexivity].
Qed.

(** The rendering of such a template. *)
Lemma format_counter_only (amb : Ambient) (pre post : string) (c : Z) :
  0 <= c -> str_all not_brace pre = true -> str_all not_brace post = true ->
  format_message amb (pre ++ "{counter}" ++ post) c
  = (pre ++ Str.to_string c ++ post)%string.
Proof.
  intros Hc Hpre Hpost. unfold format_message.
  assert (E : replace_first "{counter}" (Str.to_string c) (pre ++ "{counter}" ++ post)
              = (pre ++ Str.to_string c ++ post)%string).
  { unfold replace_first. rewrite find_after_no_brace by assumption.
    unfold Str.replace. rewrite RenderFacts.take_app.
    assert (D : Str.drop (String.length pre + String.length "{counter}")
                  (pre ++ "{counter}" ++ post) = post).
    { rewrite <- RenderFacts.length_app.
      rewrite <- (RenderFacts.app_assoc pre "{counter}" post).
      apply RenderFacts.drop_app. }
    now rewrite D. }
  rewrite E.
  assert (N : str_all not_brace (pre ++ Str.to_string c ++ post) = true).
  { rewrite !str_all_app, Hpre, Hpost.
    rewrite (str_all_impl _ _ _ digit_not_brace (to_string_nonneg_digits c Hc)).
    reflexivity. }
  rewrite (replace_first_no_brace "timestamp}" _ _ N).
  rewrite (replace_first_no_brace "hostname}" _ _ N).
  now rewrite (replace_first_no_brace "pid}" _ _ N).
Qed.

Lemma append_inv_tail (a b t : string) : (a ++ t = b ++ t)%string -> a = b.
Proof.
  revert b. induction a as [|c a IH]; intros [|d b] H; cbn in H.
  - reflexivity.
  - apply (f_equal String.length) in H. cbn in H.
    rewrite RenderFacts.length_app in H. lia.
  - apply (f_equal String.length) in H. cbn in H.
    rewrite RenderFacts.length_app in H. lia.
  - injection H as -> H. f_equal. now apply IH.
Qed.

Lemma append_inv_head (p a b : string) : (p ++ a = p ++ b)%string -> a = b.
Proof. induction p as [|c p IH]; cbn; intros H; [exact H|]. injection H as H. auto. Qed.

Lemma string_of_uint_inj (d d' : Decimal.uint) :
  NilEmpty.string_of_uint d = NilEmpty.string_of_uint d' -> d = d'.
Proof.
  intros H. apply (f_equal NilEmpty.uint_of_string) in H.
  rewrite !NilEmpty.usu in H. now injection H.
Qed.

Lemma to_string_nonneg_inj (a b : Z) :
  0 <= a -> 0 <= b -> Str.to_string a = Str.to_string b -> a = b.
Proof.
  intros Ha Hb H.
  destruct a as [|p|p]; destruct b as [|q|q]; try lia; try reflexivity.
  - rewrite to_string_pos in H.
    change (Str.to_string 0) with (NilEmpty.string_of_uint Decimal.zero) in H.
    apply string_of_uint_inj in H. symmetry in H.
    now apply DecimalPos.Unsigned.to_uint_nonzero in H.
  - rewrite to_string_pos in H.
    change (Str.to_string 0) with (NilEmpty.string_of_uint Decimal.zero) in H.
    apply string_of_uint_inj in H.
    now apply DecimalPos.Unsigned.to_uint_nonzero in H.
  - rewrite !to_string_pos in H. apply string_of_uint_inj in H.
    apply DecimalPos.Unsigned.to_uint_inj in H. now subst.
Qed.

Variable env : Env.
Variable config : Config.
Variable fuel : nat.
Variables pre post : string.

Hypothesis template : message_format config = (pre ++ "{counter}" ++ post)%string.
Hypothesis pre_plain : str_all not_brace pre = true.
Hypothesis post_plain : str_all not_brace post = true.

(** The payload of the [i]-th [send] of a run. *)
Lemma payload_of_index (i : nat) (fd : Z) (p : string) (r : Z) :
  Z.of_nat i < 2 ^ 64 ->
  nth_error (sends (trace_of (run env config fuel))) i = Some (fd, p, r) ->
  p = (pre ++ Str.to_string (Z.of_nat i) ++ post ++ nl)%string.
Proof.
  intros Hi Hs.
  destruct (run_counted env config fuel) as (c' & H1 & _ & H3 & H4).
  assert (P : nth_error (map payload_of (sends (trace_of (run env config fuel)))) i
              = Some p) by (rewrite nth_error_map, Hs; reflexivity).
  rewrite H3, nth_error_map in P.
  destruct (nth_error (renders (trace_of (run env config fuel))) i) as [[c m]|] eqn:R;
    [|discriminate].
  cbn in P. injection P as <-.
  assert (C : nth_error (map fst (renders (trace_of (run env config fuel)))) i = Some c)
    by (rewrite nth_error_map, R; reflexivity).
  rewrite H1 in C. apply counts_from_nth in C. rewrite iter_next_counter in C.
  unfold wrap_u64 in C. rewrite Z.mod_small in C by lia. subst c.
  rewrite Forall_forall in H4. destruct (H4 _ (nth_error_In _ _ R)) as [amb A].
  cbn [fst snd] in A. rewrite A, template, format_counter_only by (lia || assumption).
  now rewrite !RenderFacts.app_assoc.
Qed.

End CounterTemplate.

(** X9: for a template that has no brace besides one [{counter}], a
    rendering is the template with the decimal counter in the place of
    the placeholder, whatever the time stamp, host name and pid are. *)
Theorem format_message_counter_only (amb : Ambient) (pre post : string) (c : Z) :
  0 <= c -> str_all not_brace pre = true -> str_all not_brace post = true ->
  format_message amb (pre ++ "{counter}" ++ post) c
  = (pre ++ Str.to_string c ++ post)%string.
Proof. apply format_counter_only. Qed.

Lemma format_message_counter_only_witness :
  format_message amb0 ("msg #" ++ "{counter}" ++ " end") 41 = "msg #41 end"%string.
Proof.
  apply (format_message_counter_only amb0 "msg #" " end" 41); [lia | reflexivity..].
Defined.

(** X10: with such a template, no two messages of a run are the same: the
    payloads of two [send] calls (among the first 2^64) are equal only
    when they are the same call. *)
Theorem messages_of_a_run_are_distinct (env : Env) (config : Config) (fuel : nat)
        (pre post : string) (i j : nat) (fd fd' : Z) (p : string) (r r' : Z) :
  message_format config = (pre ++ "{counter}" ++ post)%string ->
  str_all not_brace pre = true -> str_all not_brace post = true ->
  Z.of_nat i < 2 ^ 64 -> Z.of_nat j < 2 ^ 64 ->
  nth_error (sends (trace_of (run env config fuel))) i = Some (fd, p, r) ->
  nth_error (sends (trace_of (run env config fuel))) j = Some (fd', p, r') ->
  i = j.
Proof.
  intros T Hpre Hpost Hi Hj Si Sj.
  pose proof (payload_of_index env config fuel pre post T Hpre Hpost i fd p r Hi Si) as Pi.
  pose proof (payload_of_index env config fuel pre post T Hpre Hpost j fd' p r' Hj Sj) as Pj.
  rewrite Pi in Pj. apply append_inv_head in Pj. apply append_inv_tail in Pj.
  apply to_string_nonneg_inj in Pj; lia.
Qed.

Lemma messages_of_a_run_are_distinct_witness : 1%nat = 1%nat.
Proof.
  apply (messages_of_a_run_are_distinct env_steady_ok
           (mkConfig "/tmp/s" "{counter}" 10 60 2 false) 2 "" "" 1 1 3 3
           ("1" ++ nl)%string 12 12); try reflexivity.
Defined.

(** ** connect_to_socket (lines 125-145) and the descriptors of a run *)

Section Descriptors.

Variable env : Env.
Variable config : Config.

Lemma fd_monitor_app (cur : option Z) (a b : list Event) :
  fd_monitor cur (a ++ b)
  = match fd_monitor cur a with
    | Some cur' => fd_monitor cur' b
    | None => None
    end.
Proof.
  revert cur. induction a as [|e a IH]; intros cur; [reflexivity|].
  destruct e; cbn [List.app fd_monitor]; try apply IH;
    destruct cur as [c|]; try reflexivity; try apply IH;
    destruct (_ =? c); try reflexivity; apply IH.
Qed.

Lemma fd_monitor_connect (path : string) (t : nat) :
  fd_monitor None (connect_events env path t)
  = Some (if connect_result env t <? 0 then None else Some (connect_result env t)).
Proof.
  unfold connect_events, connect_result.
  destruct (env_socket env t <? 0) eqn:S; cbn [fd_monitor]; rewrite ?S; [reflexivity|].
  destruct (env_connect env (t + 1) <? 0) eqn:C;
    do 3 (cbn [fd_monitor]; rewrite ?S, ?Z.eqb_refl); reflexivity.
Qed.

Definition open_after (x : option Z * Locals) : option Z :=
  match fst x with
  | None => Some (sock (snd x))
  | Some _ => None
  end.

Lemma send_one_fds (l : Locals) (st : Stats) (t : nat)
      (x : option Z * Locals) (st' : Stats) (es : list Event) :
  send_one env config l st t = (x, st', es) ->
  fd_monitor (Some (sock l)) es = Some (open_after x).
Proof.
  rewrite send_one_eq. cbn zeta. intros H.
  destruct (env_send env (t + 1) <? 0).
  - match type of H with
    | context [connect_result env ?k] => remember k as tk eqn:Etk; clear Etk
    end.
    pose proof (fd_monitor_connect (socket_path config) tk) as M.
    destruct (connect_result env tk <? 0) eqn:R;
      injection H as <- <- <-; unfold open_after; cbn [fst snd sock with_sock];
      cbn [fd_monitor]; rewrite Z.eqb_refl, !fd_monitor_app;
      destruct (verbose config); cbn [fd_monitor]; rewrite Z.eqb_refl, M;
      reflexivity.
  - injection H as <- <- <-. cbn [fd_monitor]. now rewrite Z.eqb_refl.
Qed.

Lemma send_batch_fds (n : nat) (l : Locals) (st : Stats) (t : nat)
      (x : option Z * Locals) (st' : Stats) (es : list Event) :
  send_batch env config n l st t = (x, st', es) ->
  fd_monitor (Some (sock l)) es = Some (open_after x).
Proof.
  revert l st t x st' es. induction n as [|n IH]; intros l st t x st' es H.
  - injection H as <- <- <-. reflexivity.
  - rewrite send_batch_S in H. destruct (env_running env t).
    + destruct (send_one env config l st _) as [[[o l1] s1] es1] eqn:E1.
      apply send_one_fds in E1. unfold open_after in E1. cbn [fst snd] in E1.
      destruct o as [code|].
      * injection H as <- <- <-. cbn [fd_monitor]. exact E1.
      * destruct (send_batch env config n l1 s1 _) as [[y s2] es2] eqn:E2.
        apply IH in E2. injection H as <- <- <-.
        cbn [fd_monitor]. now rewrite fd_monitor_app, E1.
    + injection H as <- <- <-. reflexivity.
Qed.

Definition open_after_flow (x : Flow) : option Z :=
  match x with
  | Next l | Break l => Some (sock l)
  | Return _ => None
  end.

Lemma tick_body_fds (iv ts : Z) (l : Locals) (st : Stats) (t : nat)
      (x : Flow) (st' : Stats) (es : list Event) :
  tick_body env config iv ts l st t = (x, st', es) ->
  fd_monitor (Some (sock l)) es = Some (open_after_flow x).
Proof.
  rewrite tick_body_eq. cbn zeta. intros H.
  destruct (_ >=? duration config).
  - injection H as <- <- <-. reflexivity.
  - destruct (send_batch env config _ l st _) as [[[o l1] s1] es1] eqn:E1.
    apply send_batch_fds in E1. unfold open_after in E1. cbn [fst snd] in E1.
    destruct o as [code|]; injection H as <- <- <-; cbn [fd_monitor]; [exact E1|].
    rewrite fd_monitor_app, E1. destruct (_ >=? 1); reflexivity.
Qed.

Lemma main_loop_fds (iv ts : Z) (fuel : nat) (l : Locals) (st : Stats) (t : nat)
      (x : LoopExit) (st' : Stats) (es : list Event) :
  main_loop env config iv ts fuel l st t = (x, st', es) ->
  exists final,
    fd_monitor (Some (sock l)) es = Some final /\
    match x with
    | LeftLoop l' => final = Some (sock l')
    | Returned _ => final = None
    | NoFuel => True
    end.
Proof.
  revert l st t x st' es. induction fuel as [|fuel IH]; intros l st t x st' es H.
  - injection H as <- <- <-. eexists. split; [reflexivity|exact I].
  - rewrite main_loop_S in H. destruct (env_running env t).
    + destruct (tick_body env config iv ts l st _) as [[f s1] es1] eqn:E1.
      apply tick_body_fds in E1.
      destruct f as [l1|l1|code].
      * destruct (main_loop env config iv ts fuel l1 s1 _) as [[y s2] es2] eqn:E2.
        apply IH in E2. destruct E2 as (final & M & F). injection H as <- <- <-.
        exists final. cbn [fd_monitor]. now rewrite fd_monitor_app, E1.
      * injection H as <- <- <-. eexists. split; [exact E1|reflexivity].
      * injection H as <- <- <-. eexists. split; [exact E1|reflexivity].
    + injection H as <- <- <-. eexists. split; reflexivity.
Qed.

Lemma run_fds (fuel : nat) :
  exists final,
    fd_monitor None (trace_of (run env config fuel)) = Some final /\
    forall code, outcome_of (run env config fuel) = Exit code -> final = None.
Proof.
  rewrite run_eq. cbn zeta.
  pose proof (fd_monitor_connect (socket_path config) 1) as M.
  destruct (connect_result env 1 <? 0) eqn:R.
  { exists None. cbn [trace_of snd fd_monitor]. split; [exact M|reflexivity]. }
  assert (P : fd_monitor None (preamble env config) = Some (Some (connect_result env 1))).
  { unfold preamble. cbn [fd_monitor]. now rewrite fd_monitor_app, M. }
  destruct (batch_interval_us config) as [iv|].
  2:{ eexists. split; [exact P|]. intros code H. discriminate H. }
  destruct (main_loop env config iv _ fuel _ _ _) as [[x s1] es] eqn:E.
  apply main_loop_fds in E. destruct E as (final & F & X). cbn [sock] in F.
  destruct x as [l1|code|]; cbn [trace_of outcome_of fst snd];
    rewrite fd_monitor_app, P; cbn [fd_monitor]; rewrite ?fd_monitor_app, F.
  - subst final. exists None. cbn [fd_monitor]. rewrite Z.eqb_refl. split; reflexivity.
  - subst final. exists None. rewrite app_nil_r || idtac. split; reflexivity.
  - exists final. split; [reflexivity|]. intros code H. discriminate H.
Qed.

End Descriptors.

(** X11: [connect_to_socket] returns -1 or the descriptor [socket()] gave;
    it succeeds exactly when both [socket()] and [connect()] succeed; it
    leaves the [Stats] alone; and when it fails it leaves no descriptor
    open (a socket whose [connect] failed is closed) and has written an
    error message. *)
Theorem connect_to_socket_result (env : Env) (path : string) (st : Stats) (t : nat) :
  exists fd es,
    connect_to_socket env path st t = (fd, st, es) /\
    (fd = -1 \/ (0 <= fd /\ fd = env_socket env t)) /\
    (0 <= fd <-> 0 <= env_socket env t /\ 0 <= env_connect env (t + 1)) /\
    (fd = -1 -> exists m, In (EvCerr m) es) /\
    fd_monitor None es = Some (if fd <? 0 then None else Some fd).
Proof.
  exists (connect_result env t), (connect_events env path t).
  split; [apply connect_to_socket_eq|].
  rewrite fd_monitor_connect. unfold connect_result, connect_events.
  destruct (Z.ltb_spec (env_socket env t) 0) as [S|S].
  - repeat split; auto; try lia. intros _. exists ErrCreatingSocket. cbn. auto.
  - destruct (Z.ltb_spec (env_connect env (t + 1)) 0) as [C|C].
    + repeat split; auto; try lia.
      intros _. exists (ErrConnecting path). cbn. auto.
    + repeat split; auto; try lia.
Qed.

(** X12: in every run at most one descriptor is open at a time, [connect],
    [send] and [close] are only ever applied to the descriptor that is
    open, and when the run exits (with 0 or 1) every descriptor it opened
    has been closed. *)
Theorem descriptors_are_used_in_order (env : Env) (config : Config) (fuel : nat) :
  exists final,
    fd_monitor None (trace_of (run env config fuel)) = Some final /\
    forall code, outcome_of (run env config fuel) = Exit code -> final = None.
Proof. apply run_fds. Qed.

(** ** The counters of Stats over a run (lines 216, 227-228) *)

Section Accounting.

Variable env : Env.
Variable config : Config.

Lemma wrap_u64_range (z : Z) : 0 <= wrap_u64 z < 2 ^ 64.
Proof. unfold wrap_u64. apply Z.mod_pos_bound. lia. Qed.

Lemma wrap_u64_small (z : Z) : 0 <= z < 2 ^ 64 -> wrap_u64 z = z.
Proof. unfold wrap_u64. apply Z.mod_small. Qed.

Lemma wrap_u64_add (a b c : Z) : wrap_u64 (wrap_u64 (a + b) + c) = wrap_u64 (a + (b + c)).
Proof. unfold wrap_u64. rewrite Zplus_mod_idemp_l. f_equal. lia. Qed.

Lemma sends_ok_app (a b : list Event) :
  sends_ok (a ++ b) = (sends_ok a ++ sends_ok b)%list.
Proof. unfold sends_ok. now rewrite sends_app, filter_app. Qed.

Lemma sends_failed_app (a b : list Event) :
  sends_failed (a ++ b) = (sends_failed a ++ sends_failed b)%list.
Proof. unfold sends_failed. now rewrite sends_app, filter_app. Qed.

Lemma bytes_accepted_app (a b : list Event) :
  bytes_accepted (a ++ b) = bytes_accepted a + bytes_accepted b.
Proof.
  unfold bytes_accepted. rewrite sends_ok_app, map_app.
  induction (map send_result (sends_ok a)) as [|x xs IH]; cbn; lia.
Qed.

Lemma accounted_quiet (s : Stats) (es : list Event) :
  u64_stats s -> sends es = [] -> accounted s es s.
Proof.
  intros (U1 & U2 & U3) Q. unfold accounted, sends_ok, sends_failed, bytes_accepted, sends_ok.
  rewrite Q. cbn. rewrite !Z.add_0_r, !wrap_u64_small by assumption.
  repeat split; auto; lia.
Qed.

Lemma accounted_app (s s1 s2 : Stats) (a b : list Event) :
  accounted s a s1 -> accounted s1 b s2 -> accounted s (a ++ b) s2.
Proof.
  intros (_ & A1 & A2 & A3 & A4) (U & B1 & B2 & B3 & B4). unfold accounted.
  rewrite sends_ok_app, sends_failed_app, bytes_accepted_app, !List.length_app.
  split; [exact U|].
  rewrite B1, B2, B3, B4, A1, A2, A3, A4, !wrap_u64_add, !Nat2Z.inj_add.
  repeat split; auto.
Qed.

Lemma accounted_cons_quiet (s s' : Stats) (e : Event) (es : list Event) :
  u64_stats s -> sends [e] = [] -> accounted s es s' -> accounted s (e :: es) s'.
Proof.
  intros U Q A. change (e :: es) with ([e] ++ es)%list.
  eapply accounted_app; [now apply accounted_quiet|exact A].
Qed.

Lemma accounted_u64 (s s' : Stats) (es : list Event) : accounted s es s' -> u64_stats s'.
Proof. now intros (U & _). Qed.

Lemma send_one_accounted (l : Locals) (st : Stats) (t : nat)
      (x : option Z * Locals) (st' : Stats) (es : list Event) :
  u64_stats st ->
  send_one env config l st t = (x, st', es) -> accounted st es st'.
Proof.
  intros (U1 & U2 & U3) H.
  pose proof (send_one_stats env config l st t x st' es H) as S.
  apply send_one_shape in H. cbn zeta in H.
  destruct H as (tail & -> & _ & Q & _).
  unfold accounted, u64_stats, sends_ok, sends_failed, bytes_accepted, sends_ok.
  cbn [sends]. rewrite Q. cbn [filter send_result snd].
  destruct (Z.ltb_spec (env_send env (t + 1)) 0) as [N|N]; subst st';
    destruct (Z.leb_spec 0 (env_send env (t + 1))); try lia;
    cbn [List.length map fold_right record_error record_success
         messages_sent bytes_sent errors start_time Z.of_nat Pos.of_succ_nat];
    rewrite ?Z.add_0_r;
    repeat split;
    try apply wrap_u64_range;
    try (symmetry; apply wrap_u64_small; assumption);
    try reflexivity; try tauto.
Qed.

Lemma send_batch_accounted (n : nat) (l : Locals) (st : Stats) (t : nat)
      (x : option Z * Locals) (st' : Stats) (es : list Event) :
  u64_stats st ->
  send_batch env config n l st t = (x, st', es) -> accounted st es st'.
Proof.
  revert l st t x st' es. induction n as [|n IH]; intros l st t x st' es U H.
  - injection H as <- <- <-. now apply accounted_quiet.
  - rewrite send_batch_S in H. destruct (env_running env t).
    + destruct (send_one env config l st _) as [[[o l1] s1] es1] eqn:E1.
      apply (send_one_accounted _ _ _ _ _ _ U) in E1.
      destruct o as [code|].
      * injection H as <- <- <-. now apply accounted_cons_quiet.
      * destruct (send_batch env config n l1 s1 _) as [[y s2] es2] eqn:E2.
        apply (IH _ _ _ _ _ _ (accounted_u64 _ _ _ E1)) in E2.
        injection H as <- <- <-.
        apply accounted_cons_quiet; auto. eapply accounted_app; eassumption.
    + injection H as <- <- <-. now apply accounted_quiet.
Qed.

Lemma tick_body_accounted (iv ts : Z) (l : Locals) (st : Stats) (t : nat)
      (x : Flow) (st' : Stats) (es : list Event) :
  u64_stats st ->
  tick_body env config iv ts l st t = (x, st', es) -> accounted st es st'.
Proof.
  rewrite tick_body_eq. cbn zeta. intros U H.
  destruct (_ >=? duration config).
  - injection H as <- <- <-. now apply accounted_quiet.
  - destruct (send_batch env config _ l st _) as [[[o l1] s1] es1] eqn:E1.
    apply (send_batch_accounted _ _ _ _ _ _ _ U) in E1.
    destruct o as [code|]; injection H as <- <- <-;
      apply accounted_cons_quiet; auto.
    eapply accounted_app; [eassumption|].
    apply accounted_quiet; [exact (accounted_u64 _ _ _ E1)|].
    destruct (_ >=? 1); reflexivity.
Qed.

Lemma main_loop_accounted (iv ts : Z) (fuel : nat) (l : Locals) (st : Stats) (t : nat)
      (x : LoopExit) (st' : Stats) (es : list Event) :
  u64_stats st ->
  main_loop env config iv ts fuel l st t = (x, st', es) -> accounted st es st'.
Proof.
  revert l st t x st' es. induction fuel as [|fuel IH]; intros l st t x st' es U H.
  - injection H as <- <- <-. now apply accounted_quiet.
  - rewrite main_loop_S in H. destruct (env_running env t).
    + destruct (tick_body env config iv ts l st _) as [[f s1] es1] eqn:E1.
      apply (tick_body_accounted _ _ _ _ _ _ _ _ U) in E1.
      destruct f as [l1|l1|code].
      * destruct (main_loop env config iv ts fuel l1 s1 _) as [[y s2] es2] eqn:E2.
        apply (IH _ _ _ _ _ _ (accounted_u64 _ _ _ E1)) in E2.
        injection H as <- <- <-.
        apply accounted_cons_quiet; auto. eapply accounted_app; eassumption.
      * injection H as <- <- <-. now apply accounted_cons_quiet.
      * injection H as <- <- <-. now apply accounted_cons_quiet.
    + injection H as <- <- <-. now apply accounted_quiet.
Qed.

Lemma run_accounted (fuel : nat) :
  accounted (mkStats 0 0 0 (env_steady env 0)) (trace_of (run env config fuel))
            (stats_of (run env config fuel)).
Proof.
  assert (U : u64_stats (mkStats 0 0 0 (env_steady env 0))) by (repeat split; cbn; lia).
  rewrite run_eq. cbn zeta.
  destruct (connect_events_quiet env (socket_path config) 1) as (_ & S & _).
  destruct (preamble_quiet env config) as (_ & PS & _).
  destruct (connect_result env 1 <? 0).
  { apply accounted_quiet; [exact U|]. cbn. exact S. }
  destruct (batch_interval_us config) as [iv|].
  2:{ apply accounted_quiet; [exact U|]. exact PS. }
  destruct (main_loop env config iv _ fuel _ _ _) as [[x s1] es] eqn:E.
  apply (main_loop_accounted _ _ _ _ _ _ _ _ _ U) in E.
  destruct x as [l1|code|]; cbn [trace_of stats_of fst snd];
    (eapply accounted_app; [apply accounted_quiet; [exact U|exact PS]|]);
    apply accounted_cons_quiet; auto.
  eapply accounted_app; [eassumption|].
  apply accounted_quiet; [exact (accounted_u64 _ _ _ E)|reflexivity].
Qed.

End Accounting.

(** X13: the counters account for every [send] of a run, whatever its
    outcome: [messages_sent] is the number of sends that returned a count,
    [errors] the number that returned an error, [bytes_sent] the sum of
    the counts returned (each modulo 2^64, the width of the counters), and
    [start_time] is the clock reading taken at the start. *)
Theorem stats_account_for_every_send (env : Env) (config : Config) (fuel : nat) :
  messages_sent (stats_of (run env config fuel))
  = wrap_u64 (Z.of_nat (List.length (sends_ok (trace_of (run env config fuel))))) /\
  errors (stats_of (run env config fuel))
  = wrap_u64 (Z.of_nat (List.length (sends_failed (trace_of (run env config fuel))))) /\
  bytes_sent (stats_of (run env config fuel))
  = wrap_u64 (bytes_accepted (trace_of (run env config fuel))) /\
  start_time (stats_of (run env config fuel)) = env_steady env 0.
Proof.
  destruct (run_accounted env config fuel) as (_ & A1 & A2 & A3 & A4).
  cbn in A1, A2, A3, A4. auto.
Qed.

(** ** How a run ends (lines 178-180, 222-225, 244-247) *)

Section Endings.

Variable env : Env.
Variable config : Config.

Lemma send_one_returns (l : Locals) (st : Stats) (t : nat)
      (code : Z) (l' : Locals) (st' : Stats) (es : list Event) :
  send_one env config l st t = ((Some code, l'), st', es) ->
  code = 1 /\ reconnect_failed es.
Proof.
  rewrite send_one_eq. cbn zeta. intros H.
  destruct (env_send env (t + 1) <? 0); [|discriminate].
  destruct (connect_result env _ <? 0); [|discriminate].
  injection H as <- _ _ <-. split; [reflexivity|].
  unfold reconnect_failed. cbn [In]. rewrite ?in_app_iff. cbn [In]. tauto.
Qed.

Lemma send_batch_returns (n : nat) (l : Locals) (st : Stats) (t : nat)
      (code : Z) (l' : Locals) (st' : Stats) (es : list Event) :
  send_batch env config n l st t = ((Some code, l'), st', es) ->
  code = 1 /\ reconnect_failed es.
Proof.
  revert l st t st' es. induction n as [|n IH]; intros l st t st' es H.
  - discriminate.
  - rewrite send_batch_S in H. destruct (env_running env t); [|discriminate].
    destruct (send_one env config l st _) as [[[o l1] s1] es1] eqn:E1.
    destruct o as [c|].
    + apply send_one_returns in E1. destruct E1 as (-> & F).
      injection H as <- _ _ <-. split; [reflexivity|]. now right.
    + destruct (send_batch env config n l1 s1 _) as [[y s2] es2] eqn:E2.
      injection H as -> _ <-. apply IH in E2. destruct E2 as (-> & F).
      split; [reflexivity|]. right. apply in_or_app. now right.
Qed.

Lemma tick_body_returns (iv ts : Z) (l : Locals) (st : Stats) (t : nat)
      (code : Z) (st' : Stats) (es : list Event) :
  tick_body env config iv ts l st t = (Return code, st', es) ->
  code = 1 /\ reconnect_failed es.
Proof.
  rewrite tick_body_eq. cbn zeta. intros H.
  destruct (_ >=? duration config); [discriminate|].
  destruct (send_batch env config _ l st _) as [[[o l1] s1] es1] eqn:E1.
  destruct o as [c|]; [|discriminate].
  apply send_batch_returns in E1. destruct E1 as (-> & F).
  injection H as <- _ <-. split; [reflexivity|]. now right.
Qed.

Lemma main_loop_returns (iv ts : Z) (fuel : nat) (l : Locals) (st : Stats) (t : nat)
      (code : Z) (st' : Stats) (es : list Event) :
  main_loop env config iv ts fuel l st t = (Returned code, st', es) ->
  code = 1 /\ reconnect_failed es.
Proof.
  revert l st t st' es. induction fuel as [|fuel IH]; intros l st t st' es H.
  - discriminate.
  - rewrite main_loop_S in H. destruct (env_running env t); [|discriminate].
    destruct (tick_body env config iv ts l st _) as [[f s1] es1] eqn:E1.
    destruct f as [l1|l1|c].
    + destruct (main_loop env config iv ts fuel l1 s1 _) as [[y s2] es2] eqn:E2.
      injection H as -> _ <-. apply IH in E2. destruct E2 as (-> & F).
      split; [reflexivity|]. right. apply in_or_app. now right.
    + discriminate.
    + apply tick_body_returns in E1. destruct E1 as (-> & F).
      injection H as <- _ <-. split; [reflexivity|]. now right.
Qed.

Lemma run_exit_codes (fuel : nat) (code : Z) :
  outcome_of (run env config fuel) = Exit code ->
  (code = 0 /\ 0 <= connect_result env 1 /\
   ~ reconnect_failed (trace_of (run env config fuel))) \/
  (code = 1 /\ (connect_result env 1 < 0 \/
                reconnect_failed (trace_of (run env config fuel)))).
Proof.
  intros H.
  pose proof (reconnect_failure_is_fatal env config fuel) as Fatal.
  revert H Fatal. rewrite run_eq. cbn zeta.
  destruct (Z.ltb_spec (connect_result env 1) 0) as [C|C].
  { cbn [outcome_of trace_of fst snd]. intros H _. injection H as <-. right. auto. }
  destruct (batch_interval_us config) as [iv|]; [|discriminate].
  destruct (main_loop env config iv _ fuel _ _ _) as [[x s1] es] eqn:E.
  destruct x as [l1|c|]; cbn [outcome_of trace_of fst snd]; intros H Fatal;
    try discriminate; injection H as <-.
  - left. repeat split; auto. intros F. apply Fatal in F. destruct F as [F _].
    discriminate F.
  - apply main_loop_returns in E. destruct E as (-> & F).
    right. split; [reflexivity|]. right. apply in_or_app. right. now right.
Qed.

End Endings.

(** X15: a run exits with 0 or with 1, and the exit code tells whether the
    connection was lost: it is 1 exactly when the first connection attempt
    failed or a reconnect failed, and 0 only for a run that connected and
    never failed to reconnect. *)
Theorem exit_code_reports_connection_failure (env : Env) (config : Config) (fuel : nat) :
  (forall code, outcome_of (run env config fuel) = Exit code -> code = 0 \/ code = 1) /\
  (outcome_of (run env config fuel) = Exit 1 <->
   connect_result env 1 < 0 \/ reconnect_failed (trace_of (run env config fuel))) /\
  (outcome_of (run env config fuel) = Exit 0 ->
   0 <= connect_result env 1 /\ ~ reconnect_failed (trace_of (run env config fuel))).
Proof.
  split; [|split].
  - intros code H. destruct (run_exit_codes env config fuel code H) as [(-> & _)|(-> & _)];
      auto.
  - split.
    + intros H. destruct (run_exit_codes env config fuel 1 H) as [(E & _)|(_ & F)];
        [discriminate E|exact F].
    + intros [C|F].
      * rewrite run_eq. cbn zeta. apply Z.ltb_lt in C. now rewrite C.
      * now apply reconnect_failure_is_fatal.
  - intros H. destruct (run_exit_codes env config fuel 0 H) as [(_ & F)|(E & _)];
      [exact F|discriminate E].
Qed.

(** X16: a run that exits with 0 has printed exactly one final snapshot, as
    the last one, and that snapshot shows the counters the run ended with;
    every snapshot before it is a live one. *)
Theorem graceful_exit_prints_final_stats_once (env : Env) (config : Config) (fuel : nat) :
  outcome_of (run env config fuel) = Exit 0 ->
  exists live now,
    snapshots (trace_of (run env config fuel))
    = (live ++ [snapshot (stats_of (run env config fuel)) now true])%list /\
    Forall (fun snap => snap_final snap = false) live.
Proof.
  rewrite run_eq. cbn zeta.
  destruct (preamble_quiet env config) as (_ & _ & _ & PP).
  destruct (connect_result env 1 <? 0); [discriminate|].
  destruct (batch_interval_us config) as [iv|]; [|discriminate].
  destruct (main_loop env config iv _ fuel _ _ _) as [[x s1] es] eqn:E.
  pose proof (main_loop_fatal _ _ _ _ _ _ _ _ _ _ _ E) as (NF & _).
  destruct x as [l1|c|]; cbn [outcome_of trace_of stats_of fst snd]; intros H;
    try discriminate.
  - exists (snapshots es). eexists. split; [|exact NF].
    rewrite snapshots_app, PP. cbn [snapshots List.app].
    rewrite snapshots_app. reflexivity.
  - apply main_loop_returns in E. destruct E as (-> & _). discriminate H.
Qed.

Lemma graceful_exit_prints_final_stats_once_witness :
  exists live now,
    snapshots (trace_of (run env_cancel_at_9
                           (mkConfig "/tmp/s" "{counter}" 10 60 5 false) 4))
    = (live ++ [snapshot (stats_of (run env_cancel_at_9
                                      (mkConfig "/tmp/s" "{counter}" 10 60 5 false) 4))
                  now true])%list /\
    Forall (fun snap => snap_final snap = false) live.
Proof.
  apply (graceful_exit_prints_final_stats_once env_cancel_at_9
           (mkConfig "/tmp/s" "{counter}" 10 60 5 false) 4).
  reflexivity.
Defined.

(** ** The size of a batch and the end of the duration (lines 198-207) *)

Section Ceiling.

Variable env : Env.
Variable config : Config.

Lemma send_one_one_send (l : Locals) (st : Stats) (t : nat)
      (x : option Z * Locals) (st' : Stats) (es : list Event) :
  send_one env config l st t = (x, st', es) -> List.length (sends es) = 1%nat.
Proof.
  intros H. apply send_one_shape in H. cbn zeta in H.
  destruct H as (tail & -> & _ & Q & _). cbn [sends]. now rewrite Q.
Qed.

Lemma send_batch_ceiling (n : nat) (l : Locals) (st : Stats) (t : nat)
      (x : option Z * Locals) (st' : Stats) (es : list Event) :
  send_batch env config n l st t = (x, st', es) -> (List.length (sends es) <= n)%nat.
Proof.
  revert l st t x st' es. induction n as [|n IH]; intros l st t x st' es H.
  - injection H as <- <- <-. cbn. lia.
  - rewrite send_batch_S in H. destruct (env_running env t).
    + destruct (send_one env config l st _) as [[[o l1] s1] es1] eqn:E1.
      apply send_one_one_send in E1.
      destruct o as [code|].
      * injection H as <- <- <-. cbn [sends]. lia.
      * destruct (send_batch env config n l1 s1 _) as [[y s2] es2] eqn:E2.
        apply IH in E2. injection H as <- <- <-.
        cbn [sends]. rewrite sends_app, List.length_app. lia.
    + injection H as <- <- <-. cbn. lia.
Qed.

Lemma tick_body_ceiling (iv ts : Z) (l : Locals) (st : Stats) (t : nat)
      (x : Flow) (st' : Stats) (es : list Event) :
  tick_body env config iv ts l st t = (x, st', es) ->
  (List.length (sends es) <= Z.to_nat (batch_size config))%nat.
Proof.
  rewrite tick_body_eq. cbn zeta. intros H.
  destruct (_ >=? duration config).
  - injection H as <- <- <-. cbn. lia.
  - destruct (send_batch env config _ l st _) as [[[o l1] s1] es1] eqn:E1.
    apply send_batch_ceiling in E1.
    destruct o as [code|]; injection H as <- <- <-; cbn [sends]; [exact E1|].
    rewrite sends_app, List.length_app.
    destruct (_ >=? 1); cbn [sends List.app List.length]; lia.
Qed.



(** ** The bursts between the sleeps *)

Lemma bursts_length (cur : nat) (es : list Event) :
  List.length (bursts cur es) = S (List.length (deadlines es)).
Proof.
  revert cur. induction es as [|e es IH]; intros cur; [reflexivity|].
  destruct e; cbn [bursts deadlines List.length]; now rewrite IH.
Qed.

Lemma bursts_sum (cur : nat) (es : list Event) :
  fold_right Nat.add O (bursts cur es) = (cur + List.length (sends es))%nat.
Proof.
  revert cur. induction es as [|e es IH]; intros cur; [cbn; lia|].
  destruct e; cbn [bursts sends List.length fold_right]; rewrite IH; lia.
Qed.

(** Events without a [sleep_until] add their sends to the burst in
    progress. *)
Lemma bursts_quiet (cur : nat) (a b : list Event) :
  deadlines a = [] ->
  bursts cur (a ++ b) = bursts (cur + List.length (sends a)) b.
Proof.
  revert cur. induction a as [|e a IH]; intros cur D.
  - cbn. f_equal. lia.
  - destruct e; cbn [deadlines] in D; try discriminate;
      cbn [List.app bursts sends List.length]; rewrite IH by assumption;
      f_equal; lia.
Qed.

Lemma bursts_tail (cur : nat) (es tail : list Event) :
  sends tail = [] -> deadlines tail = [] -> bursts cur (es ++ tail) = bursts cur es.
Proof.
  intros Q D. revert cur. induction es as [|e es IH]; intros cur.
  - cbn [List.app]. rewrite <- (app_nil_r tail), bursts_quiet, Q by assumption.
    cbn. f_equal. lia.
  - destruct e; cbn [List.app bursts]; now rewrite IH.
Qed.

(** The sends of an iteration all fall into one burst. *)
Lemma main_loop_bursts (iv ts : Z) (fuel : nat) (l : Locals) (st : Stats) (t : nat)
      (x : LoopExit) (st' : Stats) (es : list Event) :
  main_loop env config iv ts fuel l st t = (x, st', es) ->
  Forall (fun n => (n <= Z.to_nat (batch_size config))%nat) (bursts O es).
Proof.
  revert l st t x st' es. induction fuel as [|fuel IH]; intros l st t x st' es H.
  - injection H as <- <- <-. cbn. repeat constructor. lia.
  - rewrite main_loop_S in H. destruct (env_running env t).
    2:{ injection H as <- <- <-. cbn. repeat constructor. lia. }
    destruct (tick_body env config iv ts l st _) as [[f s1] es1] eqn:E1.
    pose proof (tick_body_ceiling _ _ _ _ _ _ _ _ E1) as C1.
    apply tick_body_sleeps in E1.
    destruct f as [l1|l1|code].
    + destruct (main_loop env config iv ts fuel l1 s1 _) as [[y s2] es2] eqn:E2.
      apply IH in E2. destruct E1 as (_ & body & -> & D & _).
      injection H as <- <- <-.
      rewrite sends_app in C1. cbn [sends List.app] in C1. rewrite app_nil_r in C1.
      cbn [bursts]. rewrite <- app_assoc, bursts_quiet by assumption.
      cbn [List.app bursts]. constructor; [lia | exact E2].
    + injection H as <- <- <-. cbn [bursts].
      rewrite <- (app_nil_r es1), bursts_quiet by assumption.
      cbn. repeat constructor. lia.
    + injection H as <- <- <-. cbn [bursts].
      rewrite <- (app_nil_r es1), bursts_quiet by assumption.
      cbn. repeat constructor. lia.
Qed.

Lemma run_bursts (fuel : nat) :
  Forall (fun n => (n <= Z.to_nat (batch_size config))%nat)
         (bursts O (trace_of (run env config fuel))).
Proof.
  rewrite run_eq. cbn zeta.
  destruct (connect_events_quiet env (socket_path config) 1) as (_ & S & D & _).
  destruct (preamble_quiet env config) as (_ & PS & PD & _).
  destruct (connect_result env 1 <? 0).
  { cbn [trace_of snd bursts].
    rewrite <- (app_nil_r (connect_events _ _ _)), bursts_quiet, S by assumption.
    cbn. repeat constructor. lia. }
  destruct (batch_interval_us config) as [iv|].
  2:{ cbn [trace_of snd].
      rewrite <- (app_nil_r (preamble _ _)), bursts_quiet, PS by assumption.
      cbn. repeat constructor. lia. }
  destruct (main_loop env config iv _ fuel _ _ _) as [[x s1] es] eqn:E.
  apply main_loop_bursts in E.
  destruct x as [l1|code|]; cbn [trace_of snd];
    rewrite bursts_quiet, PS by assumption; cbn [List.length Nat.add bursts];
    rewrite ?bursts_tail by reflexivity; exact E.
Qed.

(** ** After the duration has passed *)

Variable s : nat.
Hypothesis time_is_up : forall t, (s <= t)%nat -> expired env config t.

Lemma expired_check (t : nat) :
  (s <= t)%nat ->
  (Z.quot (env_steady env t - env_steady env 4) second >=? duration config) = true.
Proof.
  intros H. apply Z.geb_le. specialize (time_is_up t H). unfold expired in time_is_up.
  apply Z.quot_le_lower_bound; [unfold second; lia|]. lia.
Qed.

Lemma sends_after_le (k : nat) (es : list Event) :
  (sends_after k es <= List.length (sends es))%nat.
Proof. rewrite <- sends_after_0. apply sends_after_mono. Qed.

Lemma sends_after_none (k : nat) (es : list Event) : sends es = [] -> sends_after k es = O.
Proof. intros H. pose proof (sends_after_le k es) as L. rewrite H in L. cbn in L. lia. Qed.

Lemma tick_body_expired (iv : Z) (l : Locals) (st : Stats) (t : nat)
      (x : Flow) (st' : Stats) (es : list Event) :
  (s <= t)%nat ->
  tick_body env config iv (env_steady env 4) l st t = (x, st', es) -> sends es = [].
Proof.
  intros Hs. rewrite tick_body_eq. cbn zeta. rewrite (expired_check t Hs).
  intros H. now injection H as <- <- <-.
Qed.

Lemma main_loop_expired (iv : Z) (fuel : nat) (l : Locals) (st : Stats) (t : nat)
      (x : LoopExit) (st' : Stats) (es : list Event) :
  main_loop env config iv (env_steady env 4) fuel l st t = (x, st', es) ->
  (sends_after (s - t) es <= Z.to_nat (batch_size config))%nat /\
  ((s <= t + 1)%nat -> sends es = []).
Proof.
  revert l st t x st' es. induction fuel as [|fuel IH]; intros l st t x st' es H.
  - injection H as <- <- <-. split; [rewrite sends_after_none by reflexivity; lia | auto].
  - rewrite main_loop_S in H. destruct (env_running env t).
    2:{ injection H as <- <- <-.
        split; [rewrite sends_after_none by reflexivity; lia | auto]. }
    destruct (tick_body env config iv _ l st _) as [[f s1] es1] eqn:E1.
    pose proof (tick_body_ceiling _ _ _ _ _ _ _ _ E1) as C1.
    pose proof (fun Hs => tick_body_expired _ _ _ _ _ _ _ Hs E1) as X1.
    destruct f as [l1|l1|code].
    + destruct (main_loop env config iv _ fuel l1 s1 _) as [[y s2] es2] eqn:E2.
      apply IH in E2. destruct E2 as (B1 & B2). injection H as <- <- <-.
      split.
      * destruct (Nat.le_gt_cases s t) as [Hle|Hgt].
        -- replace (s - t)%nat with O by lia. rewrite sends_after_0.
           cbn [sends]. rewrite sends_app, X1, B2 by lia. cbn. lia.
        -- replace (s - t)%nat with (S (s - (t + 1))) by lia.
           rewrite sends_after_cons, sends_after_app.
           replace (s - (t + 1) - List.length es1)%nat
             with (s - (t + 1 + List.length es1))%nat by lia.
           destruct (Nat.eq_0_gt_0_cases (sends_after (s - (t + 1)) es1)) as [Z0|Pos].
           ++ lia.
           ++ pose proof (sends_after_le (s - (t + 1)) es1).
              apply sends_after_pos in Pos.
              rewrite (sends_after_none _ es2) by (apply B2; lia). lia.
      * intros Hs. cbn [sends]. rewrite sends_app, X1, B2 by lia. reflexivity.
    + injection H as <- <- <-. split.
      * pose proof (sends_after_le (s - t) (EvRunning true :: es1)) as L.
        cbn [sends] in L. lia.
      * intros Hs. cbn [sends]. apply X1. lia.
    + injection H as <- <- <-. split.
      * pose proof (sends_after_le (s - t) (EvRunning true :: es1)) as L.
        cbn [sends] in L. lia.
      * intros Hs. cbn [sends]. apply X1. lia.
Qed.

Lemma run_expired (fuel : nat) :
  (sends_after s (trace_of (run env config fuel)) <= Z.to_nat (batch_size config))%nat.
Proof.
  rewrite run_eq. cbn zeta.
  destruct (connect_events_quiet env (socket_path config) 1) as (_ & S & _).
  destruct (preamble_quiet env config) as (_ & PS & _).
  destruct (Z.ltb_spec (connect_result env 1) 0) as [|Hc].
  { cbn [trace_of snd]. rewrite sends_after_none; [lia|]. cbn. exact S. }
  destruct (batch_interval_us config) as [iv|].
  2:{ cbn [trace_of snd]. rewrite sends_after_none; [lia|exact PS]. }
  assert (L : List.length (preamble env config) = 4%nat).
  { unfold preamble, connect_events. unfold connect_result in Hc.
    destruct (env_socket env 1 <? 0); [lia|].
    destruct (env_connect env (1 + 1) <? 0); [lia|]. reflexivity. }
  destruct (main_loop env config iv _ fuel _ _ _) as [[x s1] es] eqn:E.
  apply main_loop_expired in E. destruct E as (A1 & A2).
  assert (G : forall tail, sends tail = [] ->
              (sends_after s (preamble env config
                              ++ EvNow (env_steady env 4) :: es ++ tail)
               <= Z.to_nat (batch_size config))%nat).
  { intros tail Q. rewrite sends_after_app, L.
    rewrite (sends_after_none _ (preamble env config)) by assumption.
    destruct (s - 4)%nat as [|k] eqn:Ek.
    - rewrite sends_after_0. cbn [sends]. rewrite sends_app, Q, A2 by lia.
      cbn. lia.
    - rewrite sends_after_cons, sends_after_app, (sends_after_none _ tail Q).
      replace k with (s - 5)%nat by lia. lia. }
  destruct x as [l1|code|]; cbn [trace_of snd].
  - now apply G.
  - specialize (G [] eq_refl). now rewrite app_nil_r in G.
  - specialize (G [] eq_refl). now rewrite app_nil_r in G.
Qed.

End Ceiling.

(** X17: a tick never sends more than [batch_size] messages.  Cut the
    trace of a run at its [sleep_until] calls: the bursts so obtained (one
    more than there are sleeps, and together holding every [send] of the
    run) each have at most [batch_size] sends, whatever the clock shows.
    So time lost in one tick is never made up by a larger burst in a
    later one. *)
Theorem sends_bounded_by_batch_size (env : Env) (config : Config) (fuel : nat) :
  Forall (fun n => (n <= Z.to_nat (batch_size config))%nat)
         (bursts O (trace_of (run env config fuel))) /\
  List.length (bursts O (trace_of (run env config fuel)))
  = S (List.length (deadlines (trace_of (run env config fuel)))) /\
  fold_right Nat.add O (bursts O (trace_of (run env config fuel)))
  = List.length (sends (trace_of (run env config fuel))).
Proof.
  split; [apply run_bursts|]. split; [apply bursts_length|].
  now rewrite bursts_sum.
Qed.

(** X18: the duration is enforced at the head of each tick: once the steady
    clock shows, from tick [s] on, that [duration] seconds have passed
    since [test_start], at most [batch_size] further messages are sent
    (the rest of the batch in progress), whether or not the flag is ever
    cleared. *)
Theorem duration_stops_sending (env : Env) (config : Config) (fuel s : nat) :
  (forall t, (s <= t)%nat -> expired env config t) ->
  (sends_after s (trace_of (run env config fuel)) <= Z.to_nat (batch_size config))%nat.
Proof. intros H. now apply run_expired. Qed.

Lemma duration_stops_sending_witness :
  (sends_after 8 (trace_of (run env_steady_ok
                              (mkConfig "/tmp/s" "{counter}" 10 1 3 false) 5))
   <= Z.to_nat 3)%nat.
Proof.
  apply (duration_stops_sending env_steady_ok
           (mkConfig "/tmp/s" "{counter}" 10 1 3 false) 5 8).
  intros t Ht. unfold expired, second. simpl. lia.
Defined.

(** ** Termination of the while loop *)

Section Termination.

Variable env : Env.
Variable config : Config.

(** From tick [s] on, an iteration that starts finds the flag cleared or
    the duration passed. *)
Variable s : nat.
Hypothesis stops : forall t, (s <= t)%nat ->
  env_running env t = false \/ expired env config (t + 1).

Lemma main_loop_stops (iv : Z) (fuel : nat) (l : Locals) (st : Stats) (t : nat) :
  (s - t < fuel)%nat ->
  fst (fst (main_loop env config iv (env_steady env 4) fuel l st t)) <> NoFuel.
Proof.
  revert l st t. induction fuel as [|fuel IH]; intros l st t Hf; [lia|].
  rewrite main_loop_S. destruct (env_running env t) eqn:R; [|discriminate].
  rewrite tick_body_eq. cbn zeta.
  destruct (Z.quot (env_steady env (t + 1) - env_steady env 4) second
            >=? duration config) eqn:X; [discriminate|].
  assert (Hlt : (t < s)%nat).
  { destruct (Nat.lt_ge_cases t s) as [|Hge]; [assumption|].
    destruct (stops t Hge) as [F|E]; [congruence|].
    unfold expired in E.
    assert ((Z.quot (env_steady env (t + 1) - env_steady env 4) second
             >=? duration config) = true); [|congruence].
    apply Z.geb_le. apply Z.quot_le_lower_bound; [unfold second; lia|]. lia. }
  destruct (send_batch env config _ l st _) as [[[o l1] s1] es1].
  destruct o as [code|]; [discriminate|].
  match goal with
  | |- context [main_loop env config iv (env_steady env 4) fuel ?l' ?s' ?t'] =>
      specialize (IH l' s' t');
      destruct (main_loop env config iv (env_steady env 4) fuel l' s' t')
        as [[y s2] es2]
  end.
  cbn [fst] in *. apply IH. lia.
Qed.

Lemma run_stops (fuel : nat) :
  (s < fuel)%nat -> outcome_of (run env config fuel) <> OutOfFuel.
Proof.
  intros Hf. rewrite run_eq. cbn zeta.
  destruct (connect_result env 1 <? 0); [discriminate|].
  destruct (batch_interval_us config) as [iv|]; [|discriminate].
  match goal with
  | |- context [main_loop env config iv (env_steady env 4) fuel ?l' ?s' ?t'] =>
      pose proof (main_loop_stops iv fuel l' s' t' ltac:(lia)) as M;
      destruct (main_loop env config iv (env_steady env 4) fuel l' s' t')
        as [[x s1] es]
  end.
  cbn [fst] in M. destruct x; cbn [outcome_of fst]; congruence.
Qed.

End Termination.

(** X19: the loop comes to an end: if from tick [s] on the flag reads as
    cleared, or from tick [s] on the steady clock shows the duration as
    passed, then the run needs no more than [s] iterations: with any larger
    bound it ends by itself (with an exit code, or at the division of line
    190). *)
Theorem run_terminates (env : Env) (config : Config) (fuel s : nat) :
  (forall t, (s <= t)%nat -> env_running env t = false) \/
  (forall t, (s <= t)%nat -> expired env config t) ->
  (s < fuel)%nat ->
  outcome_of (run env config fuel) <> OutOfFuel.
Proof.
  intros [H|H] Hf; apply (run_stops env config s); auto.
  intros t Ht. right. apply H. lia.
Qed.

Lemma run_terminates_witness :
  outcome_of (run env_cancel_at_9 (mkConfig "/tmp/s" "{counter}" 10 60 5 false) 10)
  <> OutOfFuel.
Proof.
  apply (run_terminates env_cancel_at_9 (mkConfig "/tmp/s" "{counter}" 10 60 5 false) 10 9).
  - left. intros t Ht. simpl. apply Nat.ltb_ge. lia.
  - lia.
Defined.

(** ** signal_handler and the flag (lines 17-18, 36-38, 252-253) *)

Section Signals.

Variable delivered : nat -> bool.

Lemma running_at_false (t : nat) :
  running_at delivered t = false <-> exists k, (k <= t)%nat /\ delivered k = true.
Proof.
  induction t as [|t IH]; cbn [running_at]; unfold signal_handler.
  - destruct (delivered 0%nat) eqn:D.
    + split; [intros _; exists 0%nat; auto | reflexivity].
    + split; [discriminate|]. intros (k & Hk & Dk).
      replace k with 0%nat in Dk by lia. congruence.
  - destruct (delivered (S t)) eqn:D.
    + split; [intros _; exists (S t); auto | reflexivity].
    + rewrite IH. split.
      * intros (k & Hk & Dk). exists k. split; [lia|exact Dk].
      * intros (k & Hk & Dk). exists k. split; [|exact Dk].
        destruct (Nat.eq_dec k (S t)) as [->|]; [congruence|lia].
Qed.

Lemma running_at_stays_false (t t' : nat) :
  (t <= t')%nat -> running_at delivered t = false -> running_at delivered t' = false.
Proof.
  intros Ht H. apply running_at_false in H. destruct H as (k & Hk & Dk).
  apply running_at_false. exists k. split; [lia|exact Dk].
Qed.

End Signals.

(** X20: the flag is cleared exactly when a signal has been delivered: it
    reads [false] at an interaction if and only if some signal arrived at
    or before it, so a second or third signal changes nothing and the
    flag is never set again. *)
Theorem flag_cleared_by_first_signal (delivered : nat -> bool) (t : nat) :
  (running_at delivered t = false <-> exists k, (k <= t)%nat /\ delivered k = true) /\
  (forall t', (t <= t')%nat -> running_at delivered t = false ->
              running_at delivered t' = false).
Proof.
  split; [apply running_at_false|].
  intros t' Ht. now apply running_at_stays_false.
Qed.

(** X21: when the flag of a run is the one [signal_handler] writes, a signal
    delivered before interaction [s] lets at most one more message out,
    however many signals follow, and the run ends within [s] iterations. *)
Theorem signal_stops_the_run (delivered : nat -> bool) (env : Env) (config : Config)
        (fuel s : nat) :
  delivered s = true ->
  env_running env = running_at delivered ->
  (sends_after s (trace_of (run env config fuel)) <= 1)%nat /\
  ((s < fuel)%nat -> outcome_of (run env config fuel) <> OutOfFuel).
Proof.
  intros D E.
  assert (C : forall t, (s <= t)%nat -> env_running env t = false).
  { intros t Ht. rewrite E. apply running_at_false. exists s. auto. }
  split.
  - now apply run_late.
  - intros Hf. apply (run_stops env config s); auto.
Qed.

Lemma signal_stops_the_run_witness :
  (sends_after 9 (trace_of (run env_signal_at_9
                              (mkConfig "/tmp/s" "{counter}" 10 60 5 false) 4)) <= 1)%nat.
Proof.
  apply (signal_stops_the_run (fun k => Nat.eqb k 9) env_signal_at_9
           (mkConfig "/tmp/s" "{counter}" 10 60 5 false) 4 9); reflexivity.
Defined.

(** ** What the snapshots show *)

Section Snapshots.

Variable env : Env.
Variable config : Config.

Lemma stats_monitor_app (c : Z * Z * Z) (a b : list Event) :
  stats_monitor c (a ++ b)
  = match stats_monitor c a with
    | Some c' => stats_monitor c' b
    | None => None
    end.
Proof.
  revert c. induction a as [|e a IH]; intros [[m x] y].
  - reflexivity.
  - destruct e; cbn [List.app stats_monitor]; try apply IH.
    + destruct (_ <? 0); apply IH.
    + destruct (_ && _)%bool; [apply IH | reflexivity].
Qed.

Lemma stats_monitor_quiet (c : Z * Z * Z) (es : list Event) :
  sends es = [] -> snapshots es = [] -> stats_monitor c es = Some c.
Proof.
  destruct c as [[m x] y]. induction es as [|e es IH]; [reflexivity|].
  destruct e; cbn [sends snapshots stats_monitor]; intros S P;
    try discriminate; now apply IH.
Qed.

Lemma stats_monitor_skip (c : Z * Z * Z) (e : Event) (es : list Event) :
  sends [e] = [] -> snapshots [e] = [] ->
  stats_monitor c (e :: es) = stats_monitor c es.
Proof.
  intros S P. change (e :: es) with ([e] ++ es)%list.
  now rewrite stats_monitor_app, (stats_monitor_quiet c [e] S P).
Qed.

Lemma stats_monitor_snapshot (s : Stats) (now : Z) (final : bool) (es : list Event) :
  stats_monitor (counters_of s) (EvStats (snapshot s now final) :: es)
  = stats_monitor (counters_of s) es.
Proof.
  unfold counters_of. cbn [stats_monitor snapshot snap_messages snap_bytes snap_errors].
  now rewrite !Z.eqb_refl.
Qed.

Lemma send_one_monitored (l : Locals) (st : Stats) (t : nat)
      (x : option Z * Locals) (st' : Stats) (es : list Event) :
  send_one env config l st t = (x, st', es) ->
  stats_monitor (counters_of st) es = Some (counters_of st').
Proof.
  intros H. pose proof (send_one_stats env config l st t x st' es H) as S.
  apply send_one_shape in H. cbn zeta in H.
  destruct H as (tail & -> & _ & Q & _ & P & _).
  rewrite stats_monitor_skip by reflexivity.
  unfold counters_of at 1. cbn [stats_monitor].
  destruct (env_send env (t + 1) <? 0); subst st';
    apply (stats_monitor_quiet _ tail Q P).
Qed.

Lemma send_batch_monitored (n : nat) (l : Locals) (st : Stats) (t : nat)
      (x : option Z * Locals) (st' : Stats) (es : list Event) :
  send_batch env config n l st t = (x, st', es) ->
  stats_monitor (counters_of st) es = Some (counters_of st').
Proof.
  revert l st t x st' es. induction n as [|n IH]; intros l st t x st' es H.
  - injection H as <- <- <-. reflexivity.
  - rewrite send_batch_S in H. destruct (env_running env t).
    + destruct (send_one env config l st _) as [[[o l1] s1] es1] eqn:E1.
      apply send_one_monitored in E1.
      destruct o as [code|].
      * injection H as <- <- <-. now rewrite stats_monitor_skip by reflexivity.
      * destruct (send_batch env config n l1 s1 _) as [[y s2] es2] eqn:E2.
        apply IH in E2. injection H as <- <- <-.
        now rewrite stats_monitor_skip, stats_monitor_app, E1 by reflexivity.
    + injection H as <- <- <-. reflexivity.
Qed.

Lemma tick_body_monitored (iv ts : Z) (l : Locals) (st : Stats) (t : nat)
      (x : Flow) (st' : Stats) (es : list Event) :
  tick_body env config iv ts l st t = (x, st', es) ->
  stats_monitor (counters_of st) es = Some (counters_of st').
Proof.
  rewrite tick_body_eq. cbn zeta. intros H.
  destruct (_ >=? duration config).
  - injection H as <- <- <-. reflexivity.
  - destruct (send_batch env config _ l st _) as [[[o l1] s1] es1] eqn:E1.
    apply send_batch_monitored in E1.
    destruct o as [code|]; injection H as <- <- <-;
      rewrite stats_monitor_skip by reflexivity; [exact E1|].
    rewrite stats_monitor_app, E1, stats_monitor_skip by reflexivity.
    destruct (_ >=? 1); cbn [List.app].
    + rewrite stats_monitor_skip, stats_monitor_snapshot by reflexivity.
      now apply stats_monitor_quiet.
    + now apply stats_monitor_quiet.
Qed.

Lemma main_loop_monitored (iv ts : Z) (fuel : nat) (l : Locals) (st : Stats) (t : nat)
      (x : LoopExit) (st' : Stats) (es : list Event) :
  main_loop env config iv ts fuel l st t = (x, st', es) ->
  stats_monitor (counters_of st) es = Some (counters_of st').
Proof.
  revert l st t x st' es. induction fuel as [|fuel IH]; intros l st t x st' es H.
  - injection H as <- <- <-. reflexivity.
  - rewrite main_loop_S in H. destruct (env_running env t).
    + destruct (tick_body env config iv ts l st _) as [[f s1] es1] eqn:E1.
      apply tick_body_monitored in E1.
      destruct f as [l1|l1|code].
      * destruct (main_loop env config iv ts fuel l1 s1 _) as [[y s2] es2] eqn:E2.
        apply IH in E2. injection H as <- <- <-.
        now rewrite stats_monitor_skip, stats_monitor_app, E1 by reflexivity.
      * injection H as <- <- <-. now rewrite stats_monitor_skip by reflexivity.
      * injection H as <- <- <-. now rewrite stats_monitor_skip by reflexivity.
    + injection H as <- <- <-. reflexivity.
Qed.

Lemma run_monitored (fuel : nat) :
  stats_monitor (0, 0, 0) (trace_of (run env config fuel))
  = Some (counters_of (stats_of (run env config fuel))).
Proof.
  rewrite run_eq. cbn zeta.
  destruct (connect_events_quiet env (socket_path config) 1) as (_ & S & _ & P & _).
  destruct (preamble_quiet env config) as (_ & PS & _ & PP).
  change (0, 0, 0) with (counters_of (mkStats 0 0 0 (env_steady env 0))).
  destruct (connect_result env 1 <? 0).
  { cbn [trace_of stats_of fst snd]. rewrite stats_monitor_skip by reflexivity.
    now apply stats_monitor_quiet. }
  destruct (batch_interval_us config) as [iv|].
  2:{ cbn [trace_of stats_of fst snd]. now apply stats_monitor_quiet. }
  destruct (main_loop env config iv _ fuel _ _ _) as [[x s1] es] eqn:E.
  apply main_loop_monitored in E.
  destruct x as [l1|code|]; cbn [trace_of stats_of fst snd];
    rewrite stats_monitor_app, (stats_monitor_quiet _ _ PS PP);
    rewrite stats_monitor_skip by reflexivity; try exact E.
  rewrite stats_monitor_app, E, stats_monitor_skip by reflexivity.
  rewrite stats_monitor_snapshot. reflexivity.
Qed.

End Snapshots.

(** X14: every snapshot of a run, live or final, shows the counters as they
    stand when it is printed: the messages, bytes and errors of exactly
    the [send] calls before it in the trace; and the counters the run ends
    with are those of all its sends. *)
Theorem snapshots_show_the_counters (env : Env) (config : Config) (fuel : nat) :
  stats_monitor (0, 0, 0) (trace_of (run env config fuel))
  = Some (counters_of (stats_of (run env config fuel))).
Proof. apply run_monitored. Qed.

(** ** A bad number ends the load *)

(** X8: the first numeric key whose value [stoi] rejects ends the load
    with that error: the lines after it are not read, whatever they say. *)
Theorem load_config_stops_at_bad_number (config config1 : Config)
        (before after : list string) (line key value : string) (e : Stoi.error) :
  load_lines config before = inl config1 ->
  key_of line = Some key -> value_of line = Some value ->
  key = "target_rate"%string \/ key = "duration"%string \/ key = "batch_size"%string ->
  Stoi.stoi value = inr e ->
  load_lines config (before ++ line :: after) = inr e.
Proof.
  intros B K V Hk S. rewrite load_lines_app, B. cbn [load_lines].
  rewrite load_line_assign, K, V.
  destruct Hk as [->|[->| ->]]; unfold assign_key, set_int;
    cbn [String.eqb Ascii.eqb Bool.eqb]; now rewrite S.
Qed.

Lemma load_config_stops_at_bad_number_witness :
  load_lines default_config (["verbose=1"] ++ "duration = 99999999999" :: ["duration=5"])
  = inr Stoi.out_of_range.
Proof.
  apply (load_config_stops_at_bad_number default_config
           (mkConfig "/tmp/fluentbit.sock" (message_format default_config)
              1000 60 100 true)
           ["verbose=1"] ["duration=5"] "duration = 99999999999" "duration"
           "99999999999"); try reflexivity.
  right. left. reflexivity.
Defined.

(** ** Validation of the configuration (C1) *)

Section Validation.

Variable env : Env.
Variable config : Config.





End Validation.




